(** * Ancile AI content pipeline: a shallow embedding and its properties

    The development follows the layout of the repository:
    - [Py]          the fragment of Python's [str], [dict] and exception
                    behaviour the code relies on;
    - [Re]          a backtracking matcher for the fragment of [re] used by
                    the patterns of [modules/analysis.py] and
                    [modules/ingestion.py];
    - [Schemas]     [models/schemas.py];
    - [Config]      [config.py];
    - [Runtime]     the store, the services outside the repository, and the
                    monad of computations that read and write them and may
                    raise;
    - [Ingestion]   [modules/ingestion.py] (scoring, filtering, same-batch
                    deduplication);
    - [Analysis]    [modules/analysis.py], the response parser;
    - [Database]    [modules/database.py];
    - [Generation]  [modules/analysis.py], the call of the generation
                    service;
    - [Instagram]   the entry point of [modules/instagram.py];
    - [Publishing]  [modules/publishing.py];
    - [Pipeline]    [scripts/run_pipeline.py].

    Text is modelled as a list of code points below 256; the character
    classes ([str.isspace], [str.isalnum], [str.lower], [\s], [\w]) are
    those of Python on that range.  Relevance scores, which the code
    computes as the float quotient of two small integers, are modelled as
    exact rationals.  The store is modelled as tables in memory: a commit
    always succeeds. *)

From Stdlib Require Import List Ascii String ZArith QArith Qminmax Lia Bool Arith.
From Stdlib Require Import Sorting.Sorted Sorting.Permutation.
Import ListNotations.

Set Implicit Arguments.
Set Warnings "-register-all".
Close Scope Q_scope.

(* ================================================================== *)
(** ** Python strings and exceptions *)

Module Py.

Definition str := list ascii.

Definition lit (s : string) : str := list_ascii_of_string s.

Definition code (c : ascii) : nat := nat_of_ascii c.

Definition between (lo hi n : nat) : bool := (lo <=? n) && (n <=? hi).

(** ['\n'] *)
Definition NL : ascii := ascii_of_nat 10.

(** [str.isspace] on one code point. *)
Definition isspace (c : ascii) : bool :=
  let n := code c in
  between 9 13 n || between 28 32 n || (n =? 133) || (n =? 160).

(** [str.isalnum] on one code point. *)
Definition isalnum (c : ascii) : bool :=
  let n := code c in
  between 48 57 n || between 65 90 n || between 97 122 n
  || (n =? 170) || (n =? 178) || (n =? 179) || (n =? 181)
  || (n =? 185) || (n =? 186) || between 188 190 n
  || between 192 214 n || between 216 246 n || between 248 255 n.

Definition lower_char (c : ascii) : ascii :=
  let n := code c in
  if between 65 90 n || (between 192 222 n && negb (n =? 215))
  then ascii_of_nat (n + 32) else c.

Definition upper_char (c : ascii) : ascii :=
  let n := code c in
  if between 97 122 n || (between 224 254 n && negb (n =? 247))
  then ascii_of_nat (n - 32) else c.

(** [s.lower()] *)
Definition lower (s : str) : str := map lower_char s.

Fixpoint str_eqb (a b : str) : bool :=
  match a, b with
  | [], [] => true
  | x :: a', y :: b' => Ascii.eqb x y && str_eqb a' b'
  | _, _ => false
  end.

(** [s.startswith(p)] *)
Fixpoint startswith (p s : str) : bool :=
  match p, s with
  | [], _ => true
  | x :: p', y :: s' => Ascii.eqb x y && startswith p' s'
  | _ :: _, [] => false
  end.

(** [s.find(sub)]; [None] stands for [-1]. *)
Fixpoint find (sub s : str) : option nat :=
  if startswith sub s then Some 0
  else match s with
       | [] => None
       | _ :: s' => option_map S (find sub s')
       end.

(** [sub in s] *)
Definition contains (sub s : str) : bool :=
  match find sub s with Some _ => true | None => false end.

(** Truth value of a string: non-empty. *)
Definition truthy (s : str) : bool :=
  match s with [] => false | _ :: _ => true end.

Fixpoint dropwhile (p : ascii -> bool) (s : str) : str :=
  match s with
  | [] => []
  | c :: s' => if p c then dropwhile p s' else s
  end.

Definition lstrip (s : str) : str := dropwhile isspace s.
Definition rstrip (s : str) : str := rev (dropwhile isspace (rev s)).

(** [s.strip()] *)
Definition strip (s : str) : str := rstrip (lstrip s).

(** [s[a:b]] for [0 <= a], [0 <= b]. *)
Definition slice (s : str) (a b : nat) : str := firstn (b - a) (skipn a s).

(** [s.split(sep, maxsplit)] for a non-empty [sep]; [maxsplit = None] is
    Python's default [-1].  [skip] counts the characters of a separator
    still to be passed over, [cur] is the piece being read, reversed. *)
Fixpoint split_go (sep : str) (maxsplit : option nat) (skip : nat)
         (cur : str) (s : str) : list str :=
  match s with
  | [] => [rev cur]
  | c :: s' =>
      match skip with
      | S k => split_go sep maxsplit k cur s'
      | O =>
          let may_split :=
            match maxsplit with Some O => false | _ => true end in
          if may_split && startswith sep s
          then rev cur ::
               split_go sep (option_map Nat.pred maxsplit)
                        (List.length sep - 1) [] s'
          else split_go sep maxsplit 0 (c :: cur) s'
      end
  end.

Definition split (sep : str) (maxsplit : option nat) (s : str) : list str :=
  split_go sep maxsplit 0 [] s.

(** [s.split()]: the non-empty runs of non-whitespace characters. *)
Fixpoint split_ws_go (cur : str) (s : str) : list str :=
  match s with
  | [] => match cur with [] => [] | _ => [rev cur] end
  | c :: s' =>
      if isspace c
      then match cur with
           | [] => split_ws_go [] s'
           | _ => rev cur :: split_ws_go [] s'
           end
      else split_ws_go (c :: cur) s'
  end.

Definition split_ws (s : str) : list str := split_ws_go [] s.

(** [sep.join(l)] *)
Fixpoint join (sep : str) (l : list str) : str :=
  match l with
  | [] => []
  | [x] => x
  | x :: l' => x ++ sep ++ join sep l'
  end.

(** [s.replace(old, new, 1)] *)
Definition replace_first (old new s : str) : str :=
  match find old s with
  | Some i => firstn i s ++ new ++ skipn (i + List.length old) s
  | None => s
  end.

(** Python values, as far as dictionaries built by the code hold them. *)
Inductive pyval : Type :=
| VNone
| VBool (b : bool)
| VInt (z : Z)
| VStr (s : str)
| VList (l : list pyval)
| VDict (d : list (str * pyval)).

Definition dict := list (str * pyval).

(** Exceptions the code can meet.  [RequestException] covers the
    hierarchy of [requests.exceptions]. *)
Inductive exn : Type :=
| ValueError (msg : str)
| TypeError (msg : str)
| KeyError (key : str)
| IndexError
| AttributeError (msg : str)
| RequestException (msg : str)
| OSError (msg : str)
| ServiceError (msg : str).

(** [str(e)] *)
Definition exn_message (e : exn) : str :=
  match e with
  | ValueError m | TypeError m | AttributeError m
  | RequestException m | OSError m | ServiceError m => m
  | KeyError k => k
  | IndexError => lit "list index out of range"
  end.

(** A computation that returns or raises. *)
Inductive result (A : Type) : Type :=
| Ok (a : A)
| Raise (e : exn).
Arguments Ok {A} a.
Arguments Raise {A} e.

Definition rbind {A B} (x : result A) (f : A -> result B) : result B :=
  match x with Ok a => f a | Raise e => Raise e end.

(** [d[k] = v] *)
Fixpoint dict_set (d : dict) (k : str) (v : pyval) : dict :=
  match d with
  | [] => [(k, v)]
  | (k', v') :: d' =>
      if str_eqb k' k then (k', v) :: d' else (k', v') :: dict_set d' k v
  end.

(** [d.get(k)] *)
Fixpoint dict_find (d : dict) (k : str) : option pyval :=
  match d with
  | [] => None
  | (k', v) :: d' => if str_eqb k' k then Some v else dict_find d' k
  end.

(** [d[k]] *)
Definition dict_get (d : dict) (k : str) : result pyval :=
  match dict_find d k with Some v => Ok v | None => Raise (KeyError k) end.

Definition dict_keys (d : dict) : list str := map fst d.

(** [l[i]] for [0 <= i] *)
Definition index {A} (l : list A) (i : nat) : result A :=
  match nth_error l i with Some a => Ok a | None => Raise IndexError end.

(** [a, b = l] *)
Definition unpack2 {A} (l : list A) : result (A * A) :=
  match l with
  | [a; b] => Ok (a, b)
  | _ => Raise (ValueError (lit "wrong number of values to unpack"))
  end.

End Py.

Export Py.

Declare Scope result_scope.
Delimit Scope result_scope with result.
Notation "x <- c1 ;; c2" := (rbind c1 (fun x => c2))
  (at level 61, c1 at next level, right associativity) : result_scope.
Notation "' pat <- c1 ;; c2" :=
  (rbind c1 (fun x => match x with pat => c2 end))
  (at level 61, pat pattern, c1 at next level, right associativity) : result_scope.

(* ================================================================== *)
(** ** Regular expressions: the fragment of [re] the code uses *)

Module Re.

Record flags := Flags {
  MULTILINE : bool;
  DOTALL : bool;
  IGNORECASE : bool;
}.

Definition no_flags := Flags false false false.

(** Members of a bracketed class. *)
Inductive atom :=
| ASpace                      (* \s *)
| AWord                       (* \w *)
| AChar (c : ascii)
| ARange (lo hi : ascii).

Inductive cls :=
| Any                         (* . *)
| One (a : atom)
| OneOf (l : list atom)       (* [...] *)
| NoneOf (l : list atom).     (* [^...] *)

(** Patterns.  A quantifier applies to a single character class, which is
    all the patterns of the code need; [hi = None] is "no upper bound". *)
Inductive re :=
| Chars (s : str)                                   (* literal text *)
| Class (c : cls)
| Rep (c : cls) (lo : nat) (hi : option nat) (greedy : bool)
| Seq (a b : re)
| Alt (a b : re)
| Group (a : re)                                    (* ( ... ), group 1 *)
| Ahead (a : re)                                    (* (?= ... ) *)
| Bol                                               (* ^ *)
| Eol.                                              (* $ *)

Definition in_range (lo hi c : ascii) : bool := between (code lo) (code hi) (code c).

Definition atom_match (fl : flags) (a : atom) (c : ascii) : bool :=
  match a with
  | ASpace => isspace c
  | AWord => isalnum c || Ascii.eqb c "_"
  | AChar p =>
      if IGNORECASE fl then Ascii.eqb (lower_char c) (lower_char p)
      else Ascii.eqb c p
  | ARange lo hi =>
      in_range lo hi c
      || (IGNORECASE fl
          && (in_range lo hi (lower_char c) || in_range lo hi (upper_char c)))
  end.

Definition cls_match (fl : flags) (k : cls) (c : ascii) : bool :=
  match k with
  | Any => DOTALL fl || negb (Ascii.eqb c NL)
  | One a => atom_match fl a c
  | OneOf l => existsb (fun a => atom_match fl a c) l
  | NoneOf l => negb (existsb (fun a => atom_match fl a c) l)
  end.

(** Where the matcher stands: offset, the character before it, the text
    still ahead. *)
Record cursor := Cursor {
  pos : nat;
  prev : option ascii;
  rest : str;
}.

Definition start_of (s : str) : cursor := Cursor 0 None s.

Definition advance (cu : cursor) (c : ascii) (r : str) : cursor :=
  Cursor (S (pos cu)) (Some c) r.

(** The span of group 1, once it has matched. *)
Definition capture := option (nat * nat).

(** What a successful attempt yields: where it ended, and group 1. *)
Definition outcome := (nat * capture)%type.

Definition at_bol (fl : flags) (cu : cursor) : bool :=
  match prev cu with
  | None => true
  | Some c => MULTILINE fl && Ascii.eqb c NL
  end.

Definition at_eol (fl : flags) (cu : cursor) : bool :=
  match rest cu with
  | [] => true
  | c :: r =>
      Ascii.eqb c NL
      && (MULTILINE fl || match r with [] => true | _ => false end)
  end.

(** Literal text at the cursor. *)
Fixpoint eat (fl : flags) (s : str) (cu : cursor) : option cursor :=
  match s with
  | [] => Some cu
  | p :: s' =>
      match rest cu with
      | c :: r =>
          if atom_match fl (AChar p) c then eat fl s' (advance cu c r)
          else None
      | [] => None
      end
  end.

Definition below (hi : option nat) (n : nat) : bool :=
  match hi with None => true | Some h => n <? h end.

(** A quantified class, [n] repetitions done so far.  Greedy: one more
    repetition is tried before the continuation; lazy: the other way
    round. *)
Fixpoint rep (fl : flags) (c : cls) (lo : nat) (hi : option nat)
         (greedy : bool) (n : nat) (p : nat) (pv : option ascii) (r : str)
         (k : cursor -> option outcome) : option outcome :=
  let more (_ : unit) :=
    match r with
    | x :: r' =>
        if below hi n && cls_match fl c x
        then rep fl c lo hi greedy (S n) (S p) (Some x) r' k
        else None
    | [] => None
    end in
  let stop (_ : unit) :=
    if lo <=? n then k (Cursor p pv r) else None in
  if greedy
  then match more tt with Some o => Some o | None => stop tt end
  else match stop tt with Some o => Some o | None => more tt end.

(** The backtracking matcher, in continuation-passing style: [k] is what
    remains to be matched after [r]. *)
Fixpoint m (fl : flags) (r : re) (cu : cursor) (g : capture)
         (k : cursor -> capture -> option outcome) : option outcome :=
  match r with
  | Chars s =>
      match eat fl s cu with Some cu' => k cu' g | None => None end
  | Class c =>
      match rest cu with
      | x :: r' => if cls_match fl c x then k (advance cu x r') g else None
      | [] => None
      end
  | Rep c lo hi greedy =>
      rep fl c lo hi greedy 0 (pos cu) (prev cu) (rest cu) (fun cu' => k cu' g)
  | Seq a b => m fl a cu g (fun cu' g' => m fl b cu' g' k)
  | Alt a b =>
      match m fl a cu g k with
      | Some o => Some o
      | None => m fl b cu g k
      end
  | Group a => m fl a cu g (fun cu' _ => k cu' (Some (pos cu, pos cu')))
  | Ahead a =>
      match m fl a cu g (fun cu' g' => Some (pos cu', g')) with
      | Some _ => k cu g
      | None => None
      end
  | Bol => if at_bol fl cu then k cu g else None
  | Eol => if at_eol fl cu then k cu g else None
  end.

(** A match object. *)
Record Match := MkMatch {
  m_start : nat;
  m_end : nat;
  m_group : capture;
}.

Definition match_at (fl : flags) (r : re) (cu : cursor) : option Match :=
  match m fl r cu None (fun cu' g => Some (pos cu', g)) with
  | Some (e, g) => Some (MkMatch (pos cu) e g)
  | None => None
  end.

(** The leftmost match at or after the cursor. *)
Fixpoint search_at (fl : flags) (r : re) (p : nat) (pv : option ascii)
         (s : str) : option Match :=
  match match_at fl r (Cursor p pv s) with
  | Some mt => Some mt
  | None =>
      match s with
      | [] => None
      | x :: s' => search_at fl r (S p) (Some x) s'
      end
  end.

(** [re.search(r, s, flags)] *)
Definition search (fl : flags) (r : re) (s : str) : option Match :=
  search_at fl r 0 None s.

(** [mt.group(0)] *)
Definition group0 (s : str) (mt : Match) : str :=
  slice s (m_start mt) (m_end mt).

(** [mt.group(1)]; [None] when the group took no part in the match. *)
Definition group1 (s : str) (mt : Match) : option str :=
  match m_group mt with
  | Some (a, b) => Some (slice s a b)
  | None => None
  end.

(** [re.sub(r, repl, s, flags)]: the non-overlapping matches, leftmost
    first, are replaced.  [skip] counts the characters of the current match
    still to be dropped. *)
Fixpoint sub_go (fl : flags) (r : re) (repl : str) (p : nat)
         (pv : option ascii) (skip : nat) (s : str) : str :=
  match s with
  | [] =>
      match skip with
      | O => match match_at fl r (Cursor p pv []) with
             | Some _ => repl
             | None => []
             end
      | S _ => []
      end
  | x :: s' =>
      match skip with
      | S k => sub_go fl r repl (S p) (Some x) k s'
      | O =>
          match match_at fl r (Cursor p pv s) with
          | Some mt =>
              if m_end mt =? p
              then repl ++ x :: sub_go fl r repl (S p) (Some x) 0 s'
              else repl ++ sub_go fl r repl (S p) (Some x) (m_end mt - p - 1) s'
          | None => x :: sub_go fl r repl (S p) (Some x) 0 s'
          end
      end
  end.

Definition sub (fl : flags) (r : re) (repl : str) (s : str) : str :=
  sub_go fl r repl 0 None 0 s.

(** Shorthands for writing patterns. *)
Definition ws : cls := One ASpace.
Definition chr (c : ascii) : re := Class (One (AChar c)).
Definition star (c : cls) : re := Rep c 0 None true.
Definition plus (c : cls) : re := Rep c 1 None true.
Definition star_lazy (c : cls) : re := Rep c 0 None false.
Definition plus_lazy (c : cls) : re := Rep c 1 None false.

End Re.

Declare Scope re_scope.
Delimit Scope re_scope with re.
Notation "a >> b" := (Re.Seq a b) (at level 62, right associativity) : re_scope.
Notation "a || b" := (Re.Alt a b) : re_scope.

(* ================================================================== *)
(** ** models/schemas.py *)

Module Schemas.

(** Points in time ([datetime]). *)
Definition datetime := Z.

Module ArticleStatus.
Inductive t := DRAFT | PUBLISHED | ARCHIVED | FAILED.
End ArticleStatus.

Module ArticleCategory.
Inductive t := GEOPOLITICS | DEFENSE | CYBER | FINANCE.
Definition value (c : t) : str :=
  match c with
  | GEOPOLITICS => lit "geopolitics"
  | DEFENSE => lit "defense"
  | CYBER => lit "cyber"
  | FINANCE => lit "finance"
  end.
End ArticleCategory.

Module PublishPlatform.
Inductive t := STRAPI | INSTAGRAM.
Definition value (c : t) : str :=
  match c with
  | STRAPI => lit "strapi"
  | INSTAGRAM => lit "instagram"
  end.
End PublishPlatform.

Module PublishStatus.
Inductive t := PENDING | PROCESSING | COMPLETED | FAILED.
Definition eqb (a b : t) : bool :=
  match a, b with
  | PENDING, PENDING | PROCESSING, PROCESSING
  | COMPLETED, COMPLETED | FAILED, FAILED => true
  | _, _ => false
  end.
End PublishStatus.

(** Table [articles]. *)
Record Article := {
  a_id : Z;
  a_title : str;
  a_content : str;
  a_summary : str;
  a_category : ArticleCategory.t;
  a_source_url : option str;
  a_source_name : option str;
  a_raw_content : option str;
  a_word_count : option Z;
  a_relevance_score : option Q;
  a_status : ArticleStatus.t;
  a_published_at : option datetime;
}.

(** Table [metadata]. *)
Record Metadata := {
  md_id : Z;
  md_article_id : Z;
  md_tags : list str;
  md_keywords : list str;
  md_seo_description : option str;
  md_entities : pyval;
  md_instagram_caption : option str;
  md_instagram_hashtags : list str;
}.

(** Table [publish_queue]. *)
Record PublishQueue := {
  q_id : Z;
  q_article_id : Z;
  q_platform : PublishPlatform.t;
  q_status : PublishStatus.t;
  q_scheduled_time : option datetime;
  q_published_time : option datetime;
  q_retry_count : Z;
  q_error_message : option str;
  q_platform_data : option pyval;
}.

(** Table [source_cache]. *)
Record SourceCache := {
  sc_id : Z;
  sc_source_url : str;
  sc_content_hash : str;
}.

End Schemas.

(* ================================================================== *)
(** ** config.py *)

Module Config.

Record Settings := {
  strapi_url : str;
  strapi_api_token : str;
  instagram_enabled : bool;
  instagram_method : str;
  max_articles_per_run : nat;
  min_relevance_score : Q;
  article_min_words : Z;
  environment : str;
}.

Definition RELEVANCE_KEYWORDS : list (str * list str) :=
  [ (lit "geopolitics",
     map lit [ "sovereignty"; "multilateral"; "bilateral"; "treaty"; "sanctions";
               "diplomatic"; "territorial"; "strategic partnership"; "alliance";
               "geopolitical"; "foreign policy"; "international relations" ]%string);
    (lit "defense",
     map lit [ "kinetic"; "military"; "defense"; "armed forces"; "weapons system";
               "deterrence"; "force projection"; "strategic assets"; "NATO";
               "joint exercises"; "combat"; "operations"; "security cooperation" ]%string);
    (lit "cyber",
     map lit [ "APT"; "threat actor"; "vulnerability"; "cyber attack"; "malware";
               "ransomware"; "threat landscape"; "attribution"; "cyber espionage";
               "zero-day"; "intrusion"; "breach"; "cybersecurity" ]%string);
    (lit "finance",
     map lit [ "fiscal"; "monetary policy"; "sovereign debt"; "liquidity";
               "central bank"; "interest rate"; "inflation"; "GDP"; "bond yield";
               "market volatility"; "financial stability"; "economic indicator" ]%string) ].

End Config.

(* ================================================================== *)
(** ** The world the stateful code runs in

    The persistent store holds the four tables in insertion order, with one
    id sequence per table.  The services outside the repository (hashing,
    the clock, the JSON decoder, the prompt file, the generation service,
    the CMS endpoint, the social back end) are functions of the number of
    external interactions so far, so that successive calls may answer
    differently.  What the code prints is kept, line by line. *)

Module Runtime.
Import Schemas.

Record DB := {
  articles : list Article;
  metadata : list Metadata;
  publish_queue : list PublishQueue;
  source_cache : list SourceCache;
  articles_seq : Z;
  metadata_seq : Z;
  publish_queue_seq : Z;
  source_cache_seq : Z;
}.

Definition empty_db : DB :=
  {| articles := []; metadata := []; publish_queue := []; source_cache := [];
     articles_seq := 1; metadata_seq := 1; publish_queue_seq := 1;
     source_cache_seq := 1 |}.

(** A [requests.Response]: the status code, and the body decoded as JSON
    when it is JSON. *)
Record Response := {
  status_code : Z;
  json_body : option pyval;
}.

Record Externals := {
  sha256 : str -> str;
  utcnow : nat -> datetime;
  json_loads : str -> option pyval;
  prompt_file : result str;
  generate_content : nat -> str -> str -> result str;
  requests_post : nat -> str -> pyval -> str -> result Response;
  instagram_backend : nat -> Article -> option Metadata -> result pyval;
}.

(** Lines written to standard output. *)
Inductive line :=
| SavedArticle (id : Z)
| SavedMetadata (article_id : Z)
| AddedToQueue (platform : PublishPlatform.t) (article_id : Z)
| UpdatedPublishQueue (queue_id : Z) (status : PublishStatus.t)
| MarkedPublished (article_id : Z)
| PublishingToStrapi (title : str)
| StrapiNotConfigured
| PublishedToStrapi (id : pyval)
| ErrorPublishingToStrapi (e : exn)
| NoPendingPublications
| ArticleNotFoundSkipping (article_id : Z)
| PublishedSuccessfully
| ErrorPublishing (e : exn)
| InstagramDisabled
| InstagramAutomation
| AnalyzingContent (category : str)
| GeneratedAnalysis (word_count : pyval)
| ErrorAnalyzing (e : exn)
| SkippedDuplicate
| SkippedTooShort (word_count : Z)
| AnalyzedAndSaved (article_id : Z)
| StrapiPublishFailed (e : exn)
| InstagramPostFailed (e : exn)
| DryRunSkipping
| ErrorProcessingArticle (e : exn).

Record World := {
  db : DB;
  clock : nat;
  stdout : list line;
  (** every committed update of a [publish_queue] row: the row before, the
      row after *)
  history : list (PublishQueue * PublishQueue);
}.

Definition initial (d : DB) : World :=
  {| db := d; clock := 0; stdout := []; history := [] |}.

Definition with_db (w : World) (d : DB) : World :=
  {| db := d; clock := clock w; stdout := stdout w; history := history w |}.

(** Stateful computations that return or raise. *)
Definition M (A : Type) : Type := World -> result A * World.

Definition ret {A} (a : A) : M A := fun w => (Ok a, w).

Definition raise {A} (e : exn) : M A := fun w => (Raise e, w).

Definition bind {A B} (c : M A) (f : A -> M B) : M B :=
  fun w =>
    match c w with
    | (Ok a, w') => f a w'
    | (Raise e, w') => (Raise e, w')
    end.

(** [try: body  except Exception as e: handler(e)] *)
Definition try_except {A} (body : M A) (handler : exn -> M A) : M A :=
  fun w =>
    match body w with
    | (Ok a, w') => (Ok a, w')
    | (Raise e, w') => handler e w'
    end.

Definition lift {A} (r : result A) : M A := fun w => (r, w).

Definition get_db : M DB := fun w => (Ok (db w), w).

Definition put_db (d : DB) : M unit := fun w => (Ok tt, with_db w d).

Definition print (l : line) : M unit :=
  fun w =>
    (Ok tt, {| db := db w; clock := clock w; stdout := stdout w ++ [l];
               history := history w |}).

Definition record_update (before after : PublishQueue) : M unit :=
  fun w =>
    (Ok tt, {| db := db w; clock := clock w; stdout := stdout w;
               history := history w ++ [(before, after)] |}).

(** One interaction with the outside: the answer depends on how many came
    before. *)
Definition external {A} (f : nat -> A) : M A :=
  fun w =>
    (Ok (f (clock w)),
     {| db := db w; clock := S (clock w); stdout := stdout w;
        history := history w |}).

Definition external_call {A} (f : nat -> result A) : M A :=
  fun w =>
    (f (clock w),
     {| db := db w; clock := S (clock w); stdout := stdout w;
        history := history w |}).

(** [for x in l: body(x)] *)
Fixpoint for_each {A} (l : list A) (body : A -> M unit) : M unit :=
  match l with
  | [] => ret tt
  | x :: l' => bind (body x) (fun _ => for_each l' body)
  end.

(** Truth value of a Python value. *)
Definition truthy_val (v : pyval) : bool :=
  match v with
  | VNone => false
  | VBool b => b
  | VInt z => negb (z =? 0)%Z
  | VStr s => truthy s
  | VList l => match l with [] => false | _ => true end
  | VDict d => match d with [] => false | _ => true end
  end.

Definition truthy_opt (s : option str) : bool :=
  match s with Some x => truthy x | None => false end.

End Runtime.

Declare Scope m_scope.
Delimit Scope m_scope with M.
Notation "x <- c1 ;; c2" := (Runtime.bind c1 (fun x => c2))
  (at level 61, c1 at next level, right associativity) : m_scope.
Notation "c1 ;; c2" := (Runtime.bind c1 (fun _ => c2))
  (at level 61, right associativity) : m_scope.

(* ================================================================== *)
(** ** modules/ingestion.py *)

Module Ingestion.
Import Schemas Config.

Record NewsArticle := {
  title : str;
  content : str;
  url : str;
  source : str;
  category : ArticleCategory.t;
  published_date : datetime;
  relevance_score : Q;
}.

(** [article.relevance_score = score] *)
Definition set_relevance_score (article : NewsArticle) (score : Q) : NewsArticle :=
  {| title := title article; content := content article; url := url article;
     source := source article; category := category article;
     published_date := published_date article; relevance_score := score |}.

(** [table.get(key, [])] *)
Fixpoint keywords_get (table : list (str * list str)) (key : str) : list str :=
  match table with
  | [] => []
  | (k, v) :: table' => if str_eqb k key then v else keywords_get table' key
  end.

(** The text that is searched for keywords. *)
Definition search_text (article : NewsArticle) : str :=
  lower (title article ++ lit " " ++ content article).

(** The loop that counts the keywords found in [text]. *)
Definition count_matches (category_keywords : list str) (text : str) : nat :=
  fold_left
    (fun matches keyword =>
       if contains (lower keyword) text then matches + 1 else matches)
    category_keywords 0.

Definition calculate_relevance_score (keywords : list (str * list str))
           (article : NewsArticle) : Q :=
  let category_keywords :=
    keywords_get keywords (ArticleCategory.value (category article)) in
  let text := search_text article in
  let matches := count_matches category_keywords text in
  match category_keywords with
  | [] => 0%Q
  | _ :: _ =>
      Qmin (inject_Z (Z.of_nat matches)
            / inject_Z (Z.of_nat (List.length category_keywords)))%Q 1%Q
  end.

(** [a < b] on scores *)
Definition Qlt_bool (a b : Q) : bool := negb (Qle_bool b a).

(** [l.sort(key=..., reverse=True)]: descending by key, and stable, elements
    of equal key keeping the order they had. *)
Fixpoint insert_reverse {A} (key : A -> Q) (x : A) (l : list A) : list A :=
  match l with
  | [] => [x]
  | y :: l' =>
      if Qlt_bool (key x) (key y) then y :: insert_reverse key x l'
      else x :: l
  end.

Definition sort_reverse {A} (key : A -> Q) (l : list A) : list A :=
  fold_right (insert_reverse key) [] l.

(** The loop of [filter_content]; [filtered] is the list built so far. *)
Fixpoint filter_loop (keywords : list (str * list str)) (min_score : Q)
         (articles : list NewsArticle) (filtered : list NewsArticle)
  : list NewsArticle :=
  match articles with
  | [] => filtered
  | article :: articles' =>
      let article :=
        set_relevance_score article (calculate_relevance_score keywords article) in
      if Qlt_bool (relevance_score article) min_score
      then filter_loop keywords min_score articles' filtered
      else if List.length (content article) <? 100
      then filter_loop keywords min_score articles' filtered
      else filter_loop keywords min_score articles' (filtered ++ [article])
  end.

Definition filter_content (keywords : list (str * list str)) (settings : Settings)
           (articles : list NewsArticle) (min_score : option Q)
  : list NewsArticle :=
  let min_score :=
    match min_score with
    | None => min_relevance_score settings
    | Some s => s
    end in
  let filtered := filter_loop keywords min_score articles [] in
  sort_reverse relevance_score filtered.

(** [re.sub(r'[^\w\s]', '', title.lower())] *)
Definition normalize_title (t : str) : str :=
  Re.sub Re.no_flags (Re.Class (Re.NoneOf [Re.AWord; Re.ASpace])) [] (lower t).

(** [x in seen_titles] *)
Definition seen (seen_titles : list str) (x : str) : bool :=
  existsb (str_eqb x) seen_titles.

(** The loop of [deduplicate]. *)
Fixpoint deduplicate_loop (articles : list NewsArticle) (seen_titles : list str)
         (unique : list NewsArticle) : list NewsArticle :=
  match articles with
  | [] => unique
  | article :: articles' =>
      let normalized := normalize_title (title article) in
      if negb (seen seen_titles normalized)
      then deduplicate_loop articles' (normalized :: seen_titles)
                            (unique ++ [article])
      else deduplicate_loop articles' seen_titles unique
  end.

Definition deduplicate (articles : list NewsArticle) : list NewsArticle :=
  deduplicate_loop articles [] [].

(** [fetch_all_sources], given what the three source adapters returned. *)
Definition fetch_all_sources (keywords : list (str * list str))
           (settings : Settings) (rss news gov : list NewsArticle)
  : list NewsArticle :=
  let all_articles := rss ++ news ++ gov in
  let all_articles := deduplicate all_articles in
  filter_content keywords settings all_articles None.

End Ingestion.

(* ================================================================== *)
(** ** modules/analysis.py *)

Module Analysis.
Import Re.
Local Open Scope result_scope.

Definition METADATA_MARK : str := lit "---METADATA---".
Definition END_METADATA_MARK : str := lit "---END_METADATA---".

(** [r'^#\s+(.+)$'], with [re.MULTILINE] *)
Definition title_re : re :=
  (Bol >> chr "#" >> plus ws >> Group (plus Any) >> Eol)%re.

(** [r'(?:EXECUTIVE SUMMARY|Executive Summary)(.*?)(?=\n#{1,2}\s|\n[A-Z]{2,}|$)'],
    with [re.DOTALL | re.IGNORECASE] *)
Definition summary_re : re :=
  ((Chars (lit "EXECUTIVE SUMMARY") || Chars (lit "Executive Summary"))
   >> Group (star_lazy Any)
   >> Ahead ((chr NL >> Rep (One (AChar "#")) 1 (Some 2) true >> Class ws)
             || (chr NL >> Rep (OneOf [ARange "A" "Z"]) 2 None true)
             || Eol))%re.

(** [r'\*\*|__'] *)
Definition bold_re : re := (Chars (lit "**") || Chars (lit "__"))%re.

(** [r'SEO_DESCRIPTION:\s*(.+)'] *)
Definition seo_re : re :=
  (Chars (lit "SEO_DESCRIPTION:") >> star ws >> Group (plus Any))%re.

(** [r'KEYWORDS:\s*\[(.+?)\]'] *)
Definition keywords_re : re :=
  (Chars (lit "KEYWORDS:") >> star ws >> chr "[" >> Group (plus_lazy Any)
   >> chr "]")%re.

(** [r'ENTITIES:\s*(\{.+?\})'], with [re.DOTALL] *)
Definition entities_re : re :=
  (Chars (lit "ENTITIES:") >> star ws
   >> Group (chr "{" >> plus_lazy Any >> chr "}"))%re.

(** [r'CATEGORY:\s*(.+)'] *)
Definition category_re : re :=
  (Chars (lit "CATEGORY:") >> star ws >> Group (plus Any))%re.

(** [r'INSTAGRAM_SUMMARY:\s*(.+?)(?=\n[A-Z_]+:|$)'], with [re.DOTALL] *)
Definition instagram_re : re :=
  (Chars (lit "INSTAGRAM_SUMMARY:") >> star ws >> Group (plus_lazy Any)
   >> Ahead ((chr NL >> plus (OneOf [ARange "A" "Z"; AChar "_"]) >> chr ":")
             || Eol))%re.

Definition multiline := Flags true false false.
Definition dotall := Flags false true false.
Definition dotall_ignorecase := Flags false true true.

(** [mt.group(1).strip()]: a group that took no part in the match is
    [None], and has no [strip]. *)
Definition group1_strip (s : str) (mt : Match) : result str :=
  match group1 s mt with
  | Some g => Ok (strip g)
  | None => Raise (AttributeError (lit "'NoneType' object has no attribute 'strip'"))
  end.

(** [mt.group(1)], about to be split *)
Definition group1_str (s : str) (mt : Match) : result str :=
  match group1 s mt with
  | Some g => Ok g
  | None => Raise (AttributeError (lit "'NoneType' object has no attribute 'split'"))
  end.

(** The first step of the parser: the text before the metadata marker and
    the metadata block. *)
Definition split_response (response_text : str) : result (str * str) :=
  if contains METADATA_MARK response_text
  then
    '(article_content, metadata_section) <-
       unpack2 (split METADATA_MARK (Some 1) response_text) ;;
    metadata_section <- index (split END_METADATA_MARK None metadata_section) 0 ;;
    Ok (article_content, metadata_section)
  else Ok (response_text, []).

(** Title and body. *)
Definition extract_title (article_content : str) : result (str * str) :=
  match search multiline title_re article_content with
  | Some title_match =>
      title <- group1_strip article_content title_match ;;
      Ok (title,
          strip (replace_first (group0 article_content title_match) []
                               article_content))
  | None =>
      let lines := split [NL] None article_content in
      title <- (match lines with
                | [] => Ok (lit "Untitled Intelligence Report")
                | _ => l0 <- index lines 0 ;; Ok (strip l0)
                end) ;;
      Ok (title, strip (join [NL] (tl lines)))
  end.

Definition extract_summary (article_content : str) : result str :=
  match search dotall_ignorecase summary_re article_content with
  | Some summary_match =>
      summary <- group1_strip article_content summary_match ;;
      let summary := sub no_flags bold_re [] summary in
      Ok (firstn 500 summary)
  | None =>
      let paragraphs :=
        filter (fun p => truthy (strip p))
               (split [NL; NL] None article_content) in
      match paragraphs with
      | [] => Ok []
      | _ => p0 <- index paragraphs 0 ;; Ok (firstn 500 p0)
      end
  end.

(** The fields of the metadata block; [json_loads] is [json.loads], which
    returns a value or raises. *)
Definition parse_metadata (json_loads : str -> option pyval)
           (metadata_section summary : str) : result dict :=
  let metadata : dict := [] in
  if truthy metadata_section
  then
    seo <- (match search no_flags seo_re metadata_section with
            | Some seo_match => group1_strip metadata_section seo_match
            | None => Ok []
            end) ;;
    let metadata := dict_set metadata (lit "seo_description") (VStr seo) in
    kws <- (match search no_flags keywords_re metadata_section with
            | Some keywords_match =>
                keywords_str <- group1_str metadata_section keywords_match ;;
                Ok (map strip (split (lit ",") None keywords_str))
            | None => Ok []
            end) ;;
    let metadata := dict_set metadata (lit "keywords") (VList (map VStr kws)) in
    ents <- (match search dotall entities_re metadata_section with
             | Some entities_match =>
                 match group1 metadata_section entities_match with
                 | Some g =>
                     match json_loads g with
                     | Some v => Ok v
                     | None => Ok (VDict [])
                     end
                 | None => Ok (VDict [])
                 end
             | None => Ok (VDict [])
             end) ;;
    let metadata := dict_set metadata (lit "entities") ents in
    cat <- (match search no_flags category_re metadata_section with
            | Some category_match => group1_strip metadata_section category_match
            | None => Ok (lit "Geopolitics")
            end) ;;
    let metadata := dict_set metadata (lit "category") (VStr cat) in
    ig <- (match search dotall instagram_re metadata_section with
           | Some instagram_match => group1_strip metadata_section instagram_match
           | None => Ok (firstn 300 summary)
           end) ;;
    let metadata := dict_set metadata (lit "instagram_summary") (VStr ig) in
    Ok metadata
  else
    Ok [ (lit "seo_description", VStr (firstn 160 summary));
         (lit "keywords", VList []);
         (lit "entities", VDict []);
         (lit "category", VStr (lit "Geopolitics"));
         (lit "instagram_summary", VStr (firstn 300 summary)) ].

Definition parse_gemini_response (json_loads : str -> option pyval)
           (response_text : str) : result dict :=
  '(article_content, metadata_section) <- split_response response_text ;;
  '(title, article_content) <- extract_title article_content ;;
  summary <- extract_summary article_content ;;
  metadata <- parse_metadata json_loads metadata_section summary ;;
  let word_count := List.length (split_ws article_content) in
  seo_description <- dict_get metadata (lit "seo_description") ;;
  keywords <- dict_get metadata (lit "keywords") ;;
  entities <- dict_get metadata (lit "entities") ;;
  instagram_summary <- dict_get metadata (lit "instagram_summary") ;;
  Ok [ (lit "title", VStr title);
       (lit "content", VStr article_content);
       (lit "summary", VStr summary);
       (lit "seo_description", seo_description);
       (lit "keywords", keywords);
       (lit "entities", entities);
       (lit "instagram_summary", instagram_summary);
       (lit "word_count", VInt (Z.of_nat word_count)) ].

End Analysis.

(* ================================================================== *)
(** ** modules/database.py *)

Module Database.
Import Schemas Runtime.
Local Open Scope m_scope.
Local Open Scope Z_scope.

Section WithExternals.
Variable ext : Externals.

Definition create_content_hash (content : str) : str := sha256 ext content.

Definition is_duplicate (d : DB) (url content : str) : bool :=
  let content_hash := create_content_hash content in
  let url_exists :=
    List.find (fun r => str_eqb (sc_source_url r) url) (source_cache d) in
  match url_exists with
  | Some _ => true
  | None =>
      let hash_exists :=
        List.find (fun r => str_eqb (sc_content_hash r) content_hash)
                  (source_cache d) in
      match hash_exists with
      | Some _ => true
      | None => false
      end
  end.

Definition add_article (d : DB) (a : Article) : DB :=
  {| articles := articles d ++ [a]; metadata := metadata d;
     publish_queue := publish_queue d; source_cache := source_cache d;
     articles_seq := articles_seq d + 1; metadata_seq := metadata_seq d;
     publish_queue_seq := publish_queue_seq d;
     source_cache_seq := source_cache_seq d |}.

Definition add_metadata (d : DB) (x : Metadata) : DB :=
  {| articles := articles d; metadata := metadata d ++ [x];
     publish_queue := publish_queue d; source_cache := source_cache d;
     articles_seq := articles_seq d; metadata_seq := metadata_seq d + 1;
     publish_queue_seq := publish_queue_seq d;
     source_cache_seq := source_cache_seq d |}.

Definition add_queue_entry (d : DB) (x : PublishQueue) : DB :=
  {| articles := articles d; metadata := metadata d;
     publish_queue := publish_queue d ++ [x]; source_cache := source_cache d;
     articles_seq := articles_seq d; metadata_seq := metadata_seq d;
     publish_queue_seq := publish_queue_seq d + 1;
     source_cache_seq := source_cache_seq d |}.

Definition add_cache_entry (d : DB) (x : SourceCache) : DB :=
  {| articles := articles d; metadata := metadata d;
     publish_queue := publish_queue d; source_cache := source_cache d ++ [x];
     articles_seq := articles_seq d; metadata_seq := metadata_seq d;
     publish_queue_seq := publish_queue_seq d;
     source_cache_seq := source_cache_seq d + 1 |}.

Definition set_articles (d : DB) (l : list Article) : DB :=
  {| articles := l; metadata := metadata d;
     publish_queue := publish_queue d; source_cache := source_cache d;
     articles_seq := articles_seq d; metadata_seq := metadata_seq d;
     publish_queue_seq := publish_queue_seq d;
     source_cache_seq := source_cache_seq d |}.

Definition set_publish_queue (d : DB) (l : list PublishQueue) : DB :=
  {| articles := articles d; metadata := metadata d;
     publish_queue := l; source_cache := source_cache d;
     articles_seq := articles_seq d; metadata_seq := metadata_seq d;
     publish_queue_seq := publish_queue_seq d;
     source_cache_seq := source_cache_seq d |}.

Definition save_article (title content summary : str)
           (category : ArticleCategory.t)
           (source_url source_name raw_content : option str)
           (word_count : option Z) (relevance_score : option Q) : M Article :=
  d <- get_db ;;
  let article :=
    {| a_id := articles_seq d; a_title := title; a_content := content;
       a_summary := summary; a_category := category;
       a_source_url := source_url; a_source_name := source_name;
       a_raw_content := raw_content; a_word_count := word_count;
       a_relevance_score := relevance_score;
       a_status := ArticleStatus.DRAFT; a_published_at := None |} in
  put_db (add_article d article) ;;
  match source_url with
  | Some u =>
      if truthy u && truthy content
      then
        d <- get_db ;;
        let cache_entry :=
          {| sc_id := source_cache_seq d; sc_source_url := u;
             sc_content_hash := create_content_hash content |} in
        put_db (add_cache_entry d cache_entry)
      else ret tt
  | None => ret tt
  end ;;
  print (SavedArticle (a_id article)) ;;
  ret article.

Definition save_metadata (article_id : Z) (tags keywords : list str)
           (seo_description : option str) (entities : pyval)
           (instagram_caption : option str) (instagram_hashtags : list str)
  : M Metadata :=
  d <- get_db ;;
  let metadata :=
    {| md_id := metadata_seq d; md_article_id := article_id;
       md_tags := tags; md_keywords := keywords;
       md_seo_description := seo_description; md_entities := entities;
       md_instagram_caption := instagram_caption;
       md_instagram_hashtags := instagram_hashtags |} in
  put_db (add_metadata d metadata) ;;
  print (SavedMetadata article_id) ;;
  ret metadata.

(** The names [save_metadata] can be called with. *)
Definition save_metadata_parameters : list str :=
  map lit [ "db"; "article_id"; "tags"; "keywords"; "seo_description";
            "entities"; "instagram_caption"; "instagram_hashtags" ]%string.

Definition add_to_publish_queue (article_id : Z) (platform : PublishPlatform.t)
           (scheduled_time : option datetime) : M PublishQueue :=
  d <- get_db ;;
  let queue_entry :=
    {| q_id := publish_queue_seq d; q_article_id := article_id;
       q_platform := platform; q_status := PublishStatus.PENDING;
       q_scheduled_time := scheduled_time; q_published_time := None;
       q_retry_count := 0; q_error_message := None;
       q_platform_data := None |} in
  put_db (add_queue_entry d queue_entry) ;;
  print (AddedToQueue platform article_id) ;;
  ret queue_entry.

Definition platform_eqb (a b : PublishPlatform.t) : bool :=
  match a, b with
  | PublishPlatform.STRAPI, PublishPlatform.STRAPI
  | PublishPlatform.INSTAGRAM, PublishPlatform.INSTAGRAM => true
  | _, _ => false
  end.

Definition get_pending_publications (d : DB)
           (platform : option PublishPlatform.t) : list PublishQueue :=
  let query :=
    filter (fun q => PublishStatus.eqb (q_status q) PublishStatus.PENDING)
           (publish_queue d) in
  match platform with
  | Some p => filter (fun q => platform_eqb (q_platform q) p) query
  | None => query
  end.

(** Row [x] written back in place of the row with its id. *)
Fixpoint write_queue_row (l : list PublishQueue) (x : PublishQueue)
  : list PublishQueue :=
  match l with
  | [] => []
  | y :: l' =>
      if q_id y =? q_id x then x :: l' else y :: write_queue_row l' x
  end.

Fixpoint write_article_row (l : list Article) (x : Article) : list Article :=
  match l with
  | [] => []
  | y :: l' =>
      if a_id y =? a_id x then x :: l' else y :: write_article_row l' x
  end.

Definition set_status (q : PublishQueue) (s : PublishStatus.t) : PublishQueue :=
  {| q_id := q_id q; q_article_id := q_article_id q;
     q_platform := q_platform q; q_status := s;
     q_scheduled_time := q_scheduled_time q;
     q_published_time := q_published_time q;
     q_retry_count := q_retry_count q;
     q_error_message := q_error_message q;
     q_platform_data := q_platform_data q |}.

Definition set_published_time (q : PublishQueue) (t : datetime) : PublishQueue :=
  {| q_id := q_id q; q_article_id := q_article_id q;
     q_platform := q_platform q; q_status := q_status q;
     q_scheduled_time := q_scheduled_time q;
     q_published_time := Some t;
     q_retry_count := q_retry_count q;
     q_error_message := q_error_message q;
     q_platform_data := q_platform_data q |}.

Definition set_failure (q : PublishQueue) (error_message : option str)
  : PublishQueue :=
  {| q_id := q_id q; q_article_id := q_article_id q;
     q_platform := q_platform q; q_status := q_status q;
     q_scheduled_time := q_scheduled_time q;
     q_published_time := q_published_time q;
     q_retry_count := q_retry_count q + 1;
     q_error_message := error_message;
     q_platform_data := q_platform_data q |}.

Definition set_platform_data (q : PublishQueue) (v : pyval) : PublishQueue :=
  {| q_id := q_id q; q_article_id := q_article_id q;
     q_platform := q_platform q; q_status := q_status q;
     q_scheduled_time := q_scheduled_time q;
     q_published_time := q_published_time q;
     q_retry_count := q_retry_count q;
     q_error_message := q_error_message q;
     q_platform_data := Some v |}.

Definition update_publish_status (queue_id : Z) (status : PublishStatus.t)
           (error_message : option str) (platform_data : option pyval)
  : M unit :=
  d <- get_db ;;
  match List.find (fun q => q_id q =? queue_id) (publish_queue d) with
  | None => raise (ValueError (lit "Queue entry not found"))
  | Some queue_entry =>
      let before := queue_entry in
      let queue_entry := set_status queue_entry status in
      queue_entry <-
        (if PublishStatus.eqb status PublishStatus.COMPLETED
         then now <- external (utcnow ext) ;;
              ret (set_published_time queue_entry now)
         else ret queue_entry) ;;
      let queue_entry :=
        if PublishStatus.eqb status PublishStatus.FAILED
        then set_failure queue_entry error_message
        else queue_entry in
      let queue_entry :=
        match platform_data with
        | Some v => if truthy_val v then set_platform_data queue_entry v
                    else queue_entry
        | None => queue_entry
        end in
      d <- get_db ;;
      put_db (set_publish_queue d (write_queue_row (publish_queue d) queue_entry)) ;;
      record_update before queue_entry ;;
      print (UpdatedPublishQueue queue_id status)
  end.

Definition set_published (a : Article) (t : datetime) : Article :=
  {| a_id := a_id a; a_title := a_title a; a_content := a_content a;
     a_summary := a_summary a; a_category := a_category a;
     a_source_url := a_source_url a; a_source_name := a_source_name a;
     a_raw_content := a_raw_content a; a_word_count := a_word_count a;
     a_relevance_score := a_relevance_score a;
     a_status := ArticleStatus.PUBLISHED; a_published_at := Some t |}.

Definition mark_article_published (article_id : Z) : M unit :=
  d <- get_db ;;
  match List.find (fun a => a_id a =? article_id) (articles d) with
  | Some article =>
      now <- external (utcnow ext) ;;
      let article := set_published article now in
      d <- get_db ;;
      put_db (set_articles d (write_article_row (articles d) article)) ;;
      print (MarkedPublished article_id)
  | None => ret tt
  end.

End WithExternals.

End Database.

(* ================================================================== *)
(** ** modules/analysis.py: the generation call *)

Module Generation.
Import Schemas Runtime.
Local Open Scope m_scope.

Section WithExternals.
Variable ext : Externals.

(** [s.upper()] *)
Definition upper (s : str) : str := map upper_char s.

(** [x or default] on an optional string *)
Definition or_default (x : option str) (default : str) : str :=
  match x with
  | Some s => if truthy s then s else default
  | None => default
  end.

Definition load_system_prompt : M str := lift (prompt_file ext).

Definition user_prompt (raw_content category : str)
           (source_url source_name : option str) : str :=
  [NL] ++ lit "Category: " ++ upper category ++ [NL]
  ++ lit "Source: " ++ or_default source_name (lit "Unknown") ++ [NL]
  ++ lit "URL: " ++ or_default source_url (lit "N/A") ++ [NL]
  ++ [NL] ++ lit "Raw Content:" ++ [NL]
  ++ raw_content ++ [NL]
  ++ [NL] ++ lit "---" ++ [NL] ++ [NL]
  ++ lit "Generate a complete intelligence analysis following the institutional writing guidelines."
  ++ [NL]
  ++ lit "Ensure the article is between 1500-3000 words and includes all required metadata."
  ++ [NL].

Definition analyze_with_gemini (raw_content category : str)
           (source_url source_name : option str) : M dict :=
  print (AnalyzingContent category) ;;
  system_prompt <- load_system_prompt ;;
  let user_prompt := user_prompt raw_content category source_url source_name in
  try_except
    (full_response <-
       external_call (fun t => generate_content ext t system_prompt user_prompt) ;;
     result <- lift (Analysis.parse_gemini_response (json_loads ext) full_response) ;;
     word_count <- lift (dict_get result (lit "word_count")) ;;
     print (GeneratedAnalysis word_count) ;;
     ret result)
    (fun e => print (ErrorAnalyzing e) ;; raise e).

End WithExternals.

End Generation.

(* ================================================================== *)
(** ** modules/instagram.py: the entry point *)

Module Instagram.
Import Schemas Config Runtime.
Local Open Scope m_scope.

Section WithExternals.
Variable settings : Settings.
Variable ext : Externals.

(** [post_to_instagram]: the guard on the configuration and the choice of
    the summary are the code's; generating the image and the caption and
    posting them is the back end. *)
Definition post_to_instagram (article : Article) (metadata : option Metadata)
  : M pyval :=
  if negb (instagram_enabled settings)
  then
    print InstagramDisabled ;;
    ret (VDict [ (lit "success", VBool false);
                 (lit "reason", VStr (lit "disabled")) ])
  else
    print InstagramAutomation ;;
    (** [metadata.instagram_summary if metadata else article.summary]:
        a [Metadata] row has no attribute of that name *)
    _ <- (match metadata with
          | Some _ =>
              raise (AttributeError
                       (lit "'Metadata' object has no attribute 'instagram_summary'"))
          | None => ret (a_summary article)
          end) ;;
    external_call (fun t => instagram_backend ext t article metadata).

End WithExternals.

End Instagram.

(* ================================================================== *)
(** ** modules/publishing.py *)

Module Publishing.
Import Schemas Config Runtime Database.
Local Open Scope m_scope.

Section WithExternals.
Variable settings : Settings.
Variable ext : Externals.

Definition opt_str (x : option str) : pyval :=
  match x with Some s => VStr s | None => VNone end.

Definition opt_int (x : option Z) : pyval :=
  match x with Some z => VInt z | None => VNone end.

(** [v.get(k, default)] *)
Definition py_get (v : pyval) (k : str) (default : pyval) : result pyval :=
  match v with
  | VDict d =>
      match dict_find d k with Some x => Ok x | None => Ok default end
  | _ => Raise (AttributeError (lit "object has no attribute 'get'"))
  end.

(** [response.raise_for_status()] *)
Definition raise_for_status (response : Response) : M unit :=
  if ((400 <=? status_code response) && (status_code response <? 600))%Z
  then raise (RequestException (lit "HTTPError"))
  else ret tt.

(** [response.json()] *)
Definition response_json (response : Response) : M pyval :=
  match json_body response with
  | Some v => ret v
  | None => raise (RequestException (lit "JSONDecodeError"))
  end.

(** The request body; the time stands for its ISO rendering. *)
Definition strapi_payload (article : Article) (now : datetime) : pyval :=
  VDict [ (lit "data",
           VDict [ (lit "title", VStr (a_title article));
                   (lit "content", VStr (a_content article));
                   (lit "summary", VStr (a_summary article));
                   (lit "category",
                    VStr (ArticleCategory.value (a_category article)));
                   (lit "source_url", opt_str (a_source_url article));
                   (lit "word_count", opt_int (a_word_count article));
                   (lit "publishedAt", VInt now) ]) ].


Definition publish_to_strapi (article : Article) : M pyval :=
  print (PublishingToStrapi (firstn 50 (a_title article))) ;;
  if negb (truthy (strapi_api_token settings))
     || str_eqb (strapi_api_token settings) (lit "your_strapi_api_token_here")
  then
    print StrapiNotConfigured ;;
    ret (VDict [ (lit "error", VStr (lit "Strapi not configured")) ])
  else
    now <- external (utcnow ext) ;;
    let payload := strapi_payload article now in
    try_except
      (response <-
         external_call
           (fun t => requests_post ext t
                       (strapi_url settings ++ lit "/api/articles") payload
                       (strapi_api_token settings)) ;;
       raise_for_status response ;;
       data <- response_json response ;;
       inner <- lift (py_get data (lit "data") (VDict [])) ;;
       id <- lift (py_get inner (lit "id") (VStr (lit "unknown"))) ;;
       print (PublishedToStrapi id) ;;
       ret data)
      (fun e =>
         match e with
         | RequestException _ => print (ErrorPublishingToStrapi e) ;; raise e
         | _ => raise e
         end).


(** [article.metadata]: the rows of [metadata] that belong to the article. *)
Definition article_metadata (d : DB) (article : Article) : list Metadata :=
  filter (fun x => (md_article_id x =? a_id article)%Z) (metadata d).

(** The delivery of one entry: the branch on the platform inside the
    [try] of the loop of [process_publish_queue]. *)
Definition deliver (queue_entry : PublishQueue) (article : Article) : M unit :=
  match q_platform queue_entry with
  | PublishPlatform.STRAPI =>
      result <- publish_to_strapi article ;;
      update_publish_status ext (q_id queue_entry)
                            PublishStatus.COMPLETED None (Some result) ;;
      mark_article_published ext (a_id article)
  | PublishPlatform.INSTAGRAM =>
      d <- get_db ;;
      let metadata := hd_error (article_metadata d article) in
      result <- Instagram.post_to_instagram settings ext article metadata ;;
      update_publish_status ext (q_id queue_entry)
                            PublishStatus.COMPLETED None (Some result)
  end.

(** The body of the loop of [process_publish_queue]. *)
Definition process_entry (queue_entry : PublishQueue) : M unit :=
  d <- get_db ;;
  match List.find (fun a => (a_id a =? q_article_id queue_entry)%Z) (articles d) with
  | None => print (ArticleNotFoundSkipping (q_article_id queue_entry))
  | Some article =>
      try_except
        (update_publish_status ext (q_id queue_entry) PublishStatus.PROCESSING
                               None None ;;
         deliver queue_entry article ;;
         print PublishedSuccessfully)
        (fun e =>
           print (ErrorPublishing e) ;;
           update_publish_status ext (q_id queue_entry) PublishStatus.FAILED
                                 (Some (exn_message e)) None)
  end.

Definition process_publish_queue : M unit :=
  d <- get_db ;;
  let pending := get_pending_publications d None in
  match pending with
  | [] => print NoPendingPublications
  | _ => for_each pending process_entry
  end.

End WithExternals.

End Publishing.

(* ================================================================== *)
(** ** scripts/run_pipeline.py *)

Module Pipeline.
Import Schemas Config Runtime Database Ingestion.
Local Open Scope m_scope.

Section WithExternals.
Variable settings : Settings.
Variable ext : Externals.

(** [l[:n]] *)
Definition take {A} (l : list A) (n : Z) : list A :=
  if (0 <=? n)%Z then firstn (Z.to_nat n) l
  else firstn (List.length l - Z.to_nat (- n)) l.

(** The fields of the analysis dictionary, read at the types the code
    uses them at. *)
Definition as_str (v : pyval) : result str :=
  match v with
  | VStr s => Ok s
  | _ => Raise (TypeError (lit "str expected"))
  end.

Definition as_int (v : pyval) : result Z :=
  match v with
  | VInt z => Ok z
  | _ => Raise (TypeError (lit "int expected"))
  end.

Fixpoint as_str_list_go (l : list pyval) : result (list str) :=
  match l with
  | [] => Ok []
  | v :: l' =>
      rbind (as_str v) (fun s =>
      rbind (as_str_list_go l') (fun r => Ok (s :: r)))
  end.

Definition as_str_list (v : pyval) : result (list str) :=
  match v with
  | VList l => as_str_list_go l
  | _ => Raise (TypeError (lit "list expected"))
  end.

(** A call with keyword arguments: a keyword that is not a parameter of
    the function is a [TypeError], raised before the body runs. *)
Definition call_with_keywords {A} (parameters keywords : list str) (body : M A)
  : M A :=
  match List.find (fun k => negb (existsb (str_eqb k) parameters)) keywords with
  | Some k => raise (TypeError (lit "got an unexpected keyword argument"))
  | None => body
  end.

(** Stage 3 of the loop body, in a run that is not a dry run: the block
    that publishes to the CMS, *)
Definition cms_delivery (article : Article) : M unit :=
  try_except
    (Publishing.publish_to_strapi settings ext article ;;
     mark_article_published ext (a_id article))
    (fun e => print (StrapiPublishFailed e)).

(** the block that posts to the social platform, *)
Definition social_delivery (article : Article) : M unit :=
  try_except
    (d <- get_db ;;
     let metadata := hd_error (Publishing.article_metadata d article) in
     Instagram.post_to_instagram settings ext article metadata ;;
     ret tt)
    (fun e => print (InstagramPostFailed e)).

(** and the two in sequence. *)
Definition publishing_stage (article : Article) : M unit :=
  cms_delivery article ;;
  if instagram_enabled settings
  then social_delivery article
  else ret tt.

(** The counters of the run. *)
Record counts := {
  processed_count : nat;
  skipped_count : nat;
}.

Definition skipped (c : counts) : counts :=
  {| processed_count := processed_count c; skipped_count := S (skipped_count c) |}.

Definition processed (c : counts) : counts :=
  {| processed_count := S (processed_count c); skipped_count := skipped_count c |}.

(** The body of the loop over the articles to process. *)
Definition process_article (dry_run : bool) (raw_article : NewsArticle)
           (c : counts) : M counts :=
  d <- get_db ;;
  if is_duplicate ext d (url raw_article) (content raw_article)
  then print SkippedDuplicate ;; ret (skipped c)
  else
    try_except
      (analysis <-
         Generation.analyze_with_gemini ext
           (content raw_article)
           (ArticleCategory.value (category raw_article))
           (Some (url raw_article)) (Some (source raw_article)) ;;
       word_count <- lift (rbind (dict_get analysis (lit "word_count")) as_int) ;;
       if (word_count <? article_min_words settings)%Z
       then print (SkippedTooShort word_count) ;; ret (skipped c)
       else
         a_title <- lift (rbind (dict_get analysis (lit "title")) as_str) ;;
         a_content <- lift (rbind (dict_get analysis (lit "content")) as_str) ;;
         a_summary <- lift (rbind (dict_get analysis (lit "summary")) as_str) ;;
         article <-
           save_article ext a_title a_content a_summary (category raw_article)
                        (Some (url raw_article)) (Some (source raw_article))
                        (Some (content raw_article)) (Some word_count)
                        (Some (relevance_score raw_article)) ;;
         keywords <- lift (rbind (dict_get analysis (lit "keywords")) as_str_list) ;;
         let tags := match keywords with [] => [] | _ => firstn 5 keywords end in
         seo_description <-
           lift (rbind (dict_get analysis (lit "seo_description")) as_str) ;;
         entities <- lift (dict_get analysis (lit "entities")) ;;
         _ <- lift (dict_get analysis (lit "instagram_summary")) ;;
         call_with_keywords save_metadata_parameters
           (map lit [ "db"; "article_id"; "tags"; "keywords"; "seo_description";
                      "entities"; "instagram_summary" ]%string)
           (save_metadata (a_id article) tags keywords (Some seo_description)
                          entities None []) ;;
         print (AnalyzedAndSaved (a_id article)) ;;
         let c := processed c in
         (if negb dry_run
          then publishing_stage article
          else print DryRunSkipping) ;;
         ret c)
      (fun e => print (ErrorProcessingArticle e) ;; ret c).

Fixpoint process_articles (dry_run : bool) (l : list NewsArticle) (c : counts)
  : M counts :=
  match l with
  | [] => ret c
  | raw_article :: l' =>
      c <- process_article dry_run raw_article c ;;
      process_articles dry_run l' c
  end.

(** [run_pipeline], given what [fetch_all_sources] returned.  The result
    is [None] when there was nothing to do, the counters otherwise. *)
Definition run_pipeline (raw_articles : list NewsArticle) (dry_run : bool)
           (max_articles : option Z) : M (option counts) :=
  let max_articles :=
    match max_articles with
    | Some n => if (n =? 0)%Z then Z.of_nat (max_articles_per_run settings) else n
    | None => Z.of_nat (max_articles_per_run settings)
    end in
  match raw_articles with
  | [] => ret None
  | _ =>
      let articles_to_process := take raw_articles max_articles in
      c <- process_articles dry_run articles_to_process
             {| processed_count := 0; skipped_count := 0 |} ;;
      ret (Some c)
  end.

End WithExternals.

End Pipeline.

(* ================================================================== *)
(** ** Sample surroundings, used to instantiate statements *)

Module Sample.
Import Schemas Config Runtime.

(** A stand-in for the hash function: any function will do for the
    statements below. *)
Definition tagged (s : str) : str := lit "sha256:" ++ s.

Definition timeout : exn := RequestException (lit "Read timed out.").

Definition ext : Externals :=
  {| sha256 := tagged;
     utcnow := fun t => (1700000000 + Z.of_nat t)%Z;
     json_loads := fun _ => None;
     prompt_file := Ok (lit "You write institutional analysis.");
     generate_content := fun _ _ _ => Raise (ServiceError (lit "quota exceeded"));
     requests_post := fun _ _ _ _ => Raise timeout;
     instagram_backend := fun _ _ _ => Raise (ServiceError (lit "login failed")) |}.

Definition settings : Settings :=
  {| strapi_url := lit "http://localhost:1337";
     strapi_api_token := lit "0123456789abcdef0123456789abcdef";
     instagram_enabled := true;
     instagram_method := lit "instagrapi";
     max_articles_per_run := 5;
     min_relevance_score := (7 # 10)%Q;
     article_min_words := 3;
     environment := lit "development" |}.


Definition article : Article :=
  {| a_id := 1; a_title := lit "NATO Expands Operations";
     a_content := lit "Body of the analysis.";
     a_summary := lit "Summary."; a_category := ArticleCategory.DEFENSE;
     a_source_url := Some (lit "https://example.org/a");
     a_source_name := Some (lit "Example"); a_raw_content := None;
     a_word_count := Some 4%Z; a_relevance_score := None;
     a_status := ArticleStatus.DRAFT; a_published_at := None |}.

(** A well-formed answer of the generation service. *)
Definition response : str :=
  lit "# Baltic Posture Review" ++ [NL]
  ++ lit "Executive Summary" ++ [NL]
  ++ lit "Force projection in the region is unchanged." ++ [NL]
  ++ lit "---METADATA---" ++ [NL]
  ++ lit "SEO_DESCRIPTION: Posture review" ++ [NL]
  ++ lit "KEYWORDS: [a, b, c]" ++ [NL]
  ++ lit "---END_METADATA---" ++ [NL].

(** The same surroundings, with a generation service that answers. *)
Definition ext_ok : Externals :=
  {| sha256 := tagged;
     utcnow := fun t => (1700000000 + Z.of_nat t)%Z;
     json_loads := fun _ => None;
     prompt_file := Ok (lit "You write institutional analysis.");
     generate_content := fun _ _ _ => Ok response;
     requests_post := fun _ _ _ _ => Raise timeout;
     instagram_backend := fun _ _ _ => Raise (ServiceError (lit "login failed")) |}.

Definition item : Ingestion.NewsArticle :=
  {| Ingestion.title := lit "NATO Expands Operations";
     Ingestion.content := lit "Joint exercises begin next week.";
     Ingestion.url := lit "https://example.org/a";
     Ingestion.source := lit "Example";
     Ingestion.category := ArticleCategory.DEFENSE;
     Ingestion.published_date := 1700000000%Z;
     Ingestion.relevance_score := (8 # 10)%Q |}.

Definition entry (id article_id : Z) (p : PublishPlatform.t) : PublishQueue :=
  {| q_id := id; q_article_id := article_id; q_platform := p;
     q_status := PublishStatus.PENDING; q_scheduled_time := None;
     q_published_time := None; q_retry_count := 0; q_error_message := None;
     q_platform_data := None |}.

(** A store with one draft article, a pending CMS entry for it, and a
    pending entry for an article that does not exist. *)
Definition store : DB :=
  {| articles := [article]; metadata := [];
     publish_queue := [ entry 1 1 PublishPlatform.STRAPI;
                        entry 2 9 PublishPlatform.INSTAGRAM ];
     source_cache := [];
     articles_seq := 2; metadata_seq := 1; publish_queue_seq := 3;
     source_cache_seq := 1 |}.

End Sample.

(* ================================================================== *)
(** * Properties *)

Unset Implicit Arguments.
Arguments lit : simpl never.
Arguments firstn : simpl never.

(** ** Strings *)

Section StringFacts.

Lemma str_eqb_eq (a b : str) : str_eqb a b = true <-> a = b.
Proof.
  revert b; induction a as [|x a IH]; intros [|y b]; simpl;
    try (split; [discriminate | discriminate]); try tauto.
  rewrite andb_true_iff, Ascii.eqb_eq, IH.
  split; [intros [-> ->]; reflexivity | intros H; inversion H; auto].
Qed.

Lemma str_eqb_refl (a : str) : str_eqb a a = true.
Proof. apply str_eqb_eq; reflexivity. Qed.

Lemma startswith_spec (p s : str) :
  startswith p s = true <-> exists t, s = p ++ t.
Proof.
  revert s; induction p as [|x p IH]; intros s; simpl.
  - split; [intros _; exists s; reflexivity | reflexivity].
  - destruct s as [|y s].
    + split; [discriminate | intros [t H]; discriminate].
    + rewrite andb_true_iff, Ascii.eqb_eq, IH. split.
      * intros [-> [t ->]]. exists t; reflexivity.
      * intros [t H]; inversion H; subst. split; [reflexivity | eauto].
Qed.

Lemma startswith_app (p t : str) : startswith p (p ++ t) = true.
Proof. apply startswith_spec; eauto. Qed.

(** [find] returns the offset of the first occurrence. *)
Lemma find_Some (sub s : str) (i : nat) :
  find sub s = Some i ->
  startswith sub (skipn i s) = true /\
  forall j, j < i -> startswith sub (skipn j s) = false.
Proof.
  revert i; induction s as [|c s IH]; intros i; simpl.
  - destruct (startswith sub []) eqn:E; [|discriminate].
    intros [= <-]. split; [exact E | intros j Hj; lia].
  - destruct (startswith sub (c :: s)) eqn:E.
    + intros [= <-]. split; [exact E | intros j Hj; lia].
    + destruct (find sub s) as [k|] eqn:F; simpl; [|discriminate].
      intros [= <-]. destruct (IH k eq_refl) as [H1 H2].
      split; [exact H1|].
      intros [|j] Hj; simpl; [exact E | apply H2; lia].
Qed.

Lemma find_None (sub s : str) :
  find sub s = None -> forall j, startswith sub (skipn j s) = false.
Proof.
  induction s as [|c s IH]; simpl.
  - destruct (startswith sub []) eqn:E; [discriminate|].
    intros _ [|j]; exact E.
  - destruct (startswith sub (c :: s)) eqn:E; [discriminate|].
    destruct (find sub s) eqn:F; simpl; [discriminate|].
    intros _ [|j]; simpl; [exact E | apply IH; reflexivity].
Qed.

(** [sub in s] holds exactly when [s] has [sub] as a substring. *)
Lemma contains_spec (sub s : str) :
  contains sub s = true <-> exists a b, s = a ++ sub ++ b.
Proof.
  unfold contains. split.
  - destruct (find sub s) as [i|] eqn:F; [|discriminate].
    intros _. destruct (find_Some _ _ _ F) as [H _].
    apply startswith_spec in H. destruct H as [t Ht].
    exists (firstn i s), t. rewrite <- Ht. symmetry. apply firstn_skipn.
  - intros [a [b ->]].
    destruct (find sub (a ++ sub ++ b)) eqn:F; [reflexivity|].
    pose proof (find_None _ _ F (List.length a)) as H.
    rewrite skipn_app, skipn_all, Nat.sub_diag in H. simpl in H.
    rewrite startswith_app in H. discriminate.
Qed.

End StringFacts.

(** ** Relevance scoring and filtering *)

Section IngestionFacts.
Import Schemas Config Ingestion.

Lemma count_matches_from (kws : list str) (text : str) (n : nat) :
  fold_left
    (fun matches keyword =>
       if contains (lower keyword) text then matches + 1 else matches)
    kws n
  = n + List.length (filter (fun kw => contains (lower kw) text) kws).
Proof.
  revert n; induction kws as [|kw kws IH]; intros n; simpl.
  - lia.
  - rewrite IH. destruct (contains (lower kw) text); simpl; lia.
Qed.

Lemma count_matches_filter (kws : list str) (text : str) :
  count_matches kws text
  = List.length (filter (fun kw => contains (lower kw) text) kws).
Proof. unfold count_matches. rewrite count_matches_from. reflexivity. Qed.

Lemma ratio_range (a b : nat) :
  a <= b -> 0 < b ->
  (0 <= inject_Z (Z.of_nat a) / inject_Z (Z.of_nat b) <= 1)%Q.
Proof.
  intros Hab Hb.
  assert (Hpos : (0 < inject_Z (Z.of_nat b))%Q).
  { unfold Qlt; simpl. lia. }
  split.
  - apply Qle_shift_div_l; [exact Hpos|].
    rewrite Qmult_0_l. unfold Qle; simpl. lia.
  - apply Qle_shift_div_r; [exact Hpos|].
    rewrite Qmult_1_l. unfold Qle; simpl. lia.
Qed.

Lemma Qlt_bool_true (a b : Q) : Qlt_bool a b = true <-> (a < b)%Q.
Proof.
  unfold Qlt_bool. rewrite negb_true_iff.
  destruct (Qle_bool b a) eqn:E.
  - apply Qle_bool_iff in E. split; [discriminate|].
    intros H. exfalso. exact (Qlt_not_le _ _ H E).
  - split; [intros _ | reflexivity].
    apply Qnot_le_lt. intros H. apply Qle_bool_iff in H. congruence.
Qed.

Lemma Qlt_bool_false (a b : Q) : Qlt_bool a b = false <-> (b <= a)%Q.
Proof.
  unfold Qlt_bool. rewrite negb_false_iff. apply Qle_bool_iff.
Qed.

(** *** The stable descending sort *)

Definition descending {A} (key : A -> Q) (a b : A) : Prop := (key b <= key a)%Q.

Lemma insert_reverse_perm {A} (key : A -> Q) (x : A) (l : list A) :
  Permutation (insert_reverse key x l) (x :: l).
Proof.
  induction l as [|y l IH]; simpl; [reflexivity|].
  destruct (Qlt_bool (key x) (key y)); [|reflexivity].
  rewrite IH. apply perm_swap.
Qed.

Lemma sort_reverse_perm {A} (key : A -> Q) (l : list A) :
  Permutation (sort_reverse key l) l.
Proof.
  induction l as [|x l IH]; simpl; [reflexivity|].
  rewrite insert_reverse_perm. apply perm_skip, IH.
Qed.

Lemma insert_reverse_sorted {A} (key : A -> Q) (x : A) (l : list A) :
  StronglySorted (descending key) l ->
  StronglySorted (descending key) (insert_reverse key x l).
Proof.
  induction 1 as [|y l Hs IH Hy]; simpl.
  - constructor; constructor.
  - destruct (Qlt_bool (key x) (key y)) eqn:E.
    + apply Qlt_bool_true in E. constructor; [exact IH|].
      apply (Permutation_Forall (x := x :: l)).
      * symmetry. apply insert_reverse_perm.
      * constructor; [apply Qlt_le_weak, E | exact Hy].
    + apply Qlt_bool_false in E. constructor.
      * constructor; assumption.
      * constructor; [exact E|].
        eapply Forall_impl; [|exact Hy].
        intros z Hz. unfold descending in *. eapply Qle_trans; eassumption.
Qed.

Lemma sort_reverse_sorted {A} (key : A -> Q) (l : list A) :
  StronglySorted (descending key) (sort_reverse key l).
Proof.
  induction l as [|x l IH]; simpl; [constructor|].
  apply insert_reverse_sorted, IH.
Qed.

(** *** The loops, without their accumulators *)

Definition rescore (keywords : list (str * list str)) (a : NewsArticle)
  : NewsArticle :=
  set_relevance_score a (calculate_relevance_score keywords a).

Definition passes (min_score : Q) (a : NewsArticle) : bool :=
  negb (Qlt_bool (relevance_score a) min_score)
  && negb (List.length (content a) <? 100).

Lemma filter_loop_spec keywords min_score articles filtered :
  filter_loop keywords min_score articles filtered
  = filtered ++ filter (passes min_score) (map (rescore keywords) articles).
Proof.
  revert filtered; induction articles as [|a l IH]; intros filtered; simpl.
  - rewrite app_nil_r. reflexivity.
  - unfold passes, rescore at 1; simpl.
    destruct (Qlt_bool (calculate_relevance_score keywords a) min_score);
      simpl; [apply IH|].
    destruct (List.length (content a) <? 100); simpl; [apply IH|].
    rewrite IH, <- app_assoc. reflexivity.
Qed.

Definition norm (a : NewsArticle) : str := normalize_title (title a).

Fixpoint first_titles (seen_titles : list str) (l : list NewsArticle)
  : list NewsArticle :=
  match l with
  | [] => []
  | a :: l' =>
      if negb (seen seen_titles (norm a))
      then a :: first_titles (norm a :: seen_titles) l'
      else first_titles seen_titles l'
  end.

Lemma deduplicate_loop_spec articles seen_titles unique :
  deduplicate_loop articles seen_titles unique
  = unique ++ first_titles seen_titles articles.
Proof.
  revert seen_titles unique; induction articles as [|a l IH];
    intros seen_titles unique; simpl.
  - rewrite app_nil_r. reflexivity.
  - fold (norm a). destruct (seen seen_titles (norm a)); simpl.
    + apply IH.
    + rewrite IH, <- app_assoc. reflexivity.
Qed.

Lemma seen_spec (seen_titles : list str) (x : str) :
  seen seen_titles x = true <-> In x seen_titles.
Proof.
  unfold seen. rewrite existsb_exists. split.
  - intros [y [Hy E]]. apply str_eqb_eq in E. subst. exact Hy.
  - intros H. exists x. split; [exact H | apply str_eqb_refl].
Qed.

Lemma first_titles_In seen_titles l a :
  In a (first_titles seen_titles l) ->
  ~ In (norm a) seen_titles /\
  exists before after,
    l = before ++ a :: after /\
    Forall (fun y => norm y <> norm a) before.
Proof.
  revert seen_titles; induction l as [|b l IH]; intros seen_titles; simpl;
    [tauto|].
  destruct (seen seen_titles (norm b)) eqn:E; simpl.
  - intros H. destruct (IH _ H) as [Hn [before [after [-> Hb]]]].
    split; [exact Hn|].
    exists (b :: before), after. split; [reflexivity|].
    constructor; [|exact Hb].
    intros Heq. apply Hn. rewrite <- Heq. apply seen_spec, E.
  - intros [<- | H].
    + split.
      * intros Hin. apply seen_spec in Hin. congruence.
      * exists [], l. split; [reflexivity | constructor].
    + destruct (IH _ H) as [Hn [before [after [-> Hb]]]].
      split; [intros Hin; apply Hn; right; exact Hin|].
      exists (b :: before), after. split; [reflexivity|].
      constructor; [|exact Hb].
      intros Heq. apply Hn. left. exact Heq.
Qed.

Lemma first_titles_NoDup seen_titles l :
  NoDup (map norm (first_titles seen_titles l)).
Proof.
  revert seen_titles; induction l as [|b l IH]; intros seen_titles; simpl;
    [constructor|].
  destruct (seen seen_titles (norm b)); simpl; [apply IH|].
  constructor; [|apply IH].
  rewrite in_map_iff. intros [a [Ha Hin]].
  apply first_titles_In in Hin. destruct Hin as [Hn _].
  apply Hn. left. symmetry. exact Ha.
Qed.

Lemma NoDup_map_filter {X Y} (key : X -> Y) (keep : X -> bool) (xs : list X) :
  NoDup (map key xs) -> NoDup (map key (filter keep xs)).
Proof.
  intros Hnd. induction xs as [|x xs IH]; simpl; [constructor|].
  simpl in Hnd. apply NoDup_cons_iff in Hnd. destruct Hnd as [Hx Hxs].
  destruct (keep x); simpl; [|exact (IH Hxs)].
  apply NoDup_cons; [|exact (IH Hxs)].
  intros Hin. apply Hx. apply in_map_iff in Hin.
  destruct Hin as [y [Hy Hin]]. apply filter_In in Hin.
  apply in_map_iff. exists y. tauto.
Qed.

End IngestionFacts.

Section IngestionClaims.
Import Schemas Config Ingestion.

(** C6.  The relevance score lies in [0,1].  It is the number of keywords of
    the item's category that occur, compared case-insensitively, as a
    substring of the text built from title and body, divided by the number
    of keywords of that category; the cap at 1 never changes that quotient.
    When the category has no keywords the score is exactly 0. *)
Theorem calculate_relevance_score_spec
        (keywords : list (str * list str)) (article : NewsArticle) :
  let kws := keywords_get keywords (ArticleCategory.value (category article)) in
  let text := lower (title article ++ lit " " ++ content article) in
  let found := filter (fun kw => contains (lower kw) text) kws in
  let ratio :=
    (inject_Z (Z.of_nat (List.length found))
     / inject_Z (Z.of_nat (List.length kws)))%Q in
  let score := calculate_relevance_score keywords article in
  (0 <= score <= 1)%Q
  /\ (forall kw,
        In kw found <->
        In kw kws /\ exists a b, text = a ++ lower kw ++ b)
  /\ match kws with
     | [] => score = 0%Q
     | _ :: _ => (score == Qmin ratio 1)%Q /\ (score == ratio)%Q
     end.
Proof.
  intros kws text found ratio score.
  assert (Hfound : forall kw,
             In kw found <->
             In kw kws /\ exists a b, text = a ++ lower kw ++ b).
  { intros kw. unfold found. rewrite filter_In, contains_spec. tauto. }
  assert (Hscore :
            match kws with
            | [] => score = 0%Q
            | _ :: _ => score = Qmin ratio 1
            end).
  { unfold score, calculate_relevance_score.
    fold kws. unfold search_text. fold text.
    rewrite count_matches_filter. fold found.
    destruct kws; reflexivity. }
  assert (Hlen : List.length found <= List.length kws)
    by apply filter_length_le.
  destruct kws as [|k kws'] eqn:Ek.
  - rewrite Hscore. split; [|split; [exact Hfound | reflexivity]].
    split; unfold Qle; simpl; lia.
  - assert (Hr : (0 <= ratio <= 1)%Q).
    { apply ratio_range; [exact Hlen | simpl; lia]. }
    assert (Hmin : (Qmin ratio 1 == ratio)%Q) by (apply Q.min_l, Hr).
    rewrite Hscore. split; [|split; [exact Hfound|split]].
    + rewrite Hmin. exact Hr.
    + reflexivity.
    + exact Hmin.
Qed.


(** Scenario A: an item whose body has 50 characters is dropped, whatever
    its score. *)
Example short_body_is_dropped :
  filter_content RELEVANCE_KEYWORDS Sample.settings
    [ {| title := lit "NATO military operations";
         content := lit "NATO military defense combat operations deterrence";
         url := lit "https://example.org/s"; source := lit "Example";
         category := ArticleCategory.DEFENSE; published_date := 0%Z;
         relevance_score := 0%Q |} ]
    (Some 0%Q)
  = [].
Proof. reflexivity. Qed.

(** Scenario B: of two items with the same normalized title the second is
    dropped. *)
Example same_title_is_dropped :
  map title
      (deduplicate
         [ Sample.item;
           set_relevance_score
             {| title := lit "nato expands operations!!!";
                content := lit "Another body."; url := lit "https://example.org/b";
                source := lit "Other"; category := ArticleCategory.DEFENSE;
                published_date := 0%Z; relevance_score := 0%Q |} 0%Q ])
  = [lit "NATO Expands Operations"].
Proof. reflexivity. Qed.

(** Three of the thirteen defense keywords occur in the sample item. *)
Example sample_score :
  calculate_relevance_score RELEVANCE_KEYWORDS Sample.item = (3 # 13)%Q.
Proof. vm_compute. reflexivity. Qed.

End IngestionClaims.

(** ** The persistence layer *)

Section DatabaseFacts.
Import Schemas Runtime Database.
Variable ext : Externals.

Lemma is_duplicate_by_url (d : DB) (url body : str) :
  (exists r, In r (source_cache d) /\ sc_source_url r = url) ->
  is_duplicate ext d url body = true.
Proof.
  intros [r [Hin Hr]]. unfold is_duplicate.
  destruct (List.find (fun r => str_eqb (sc_source_url r) url) (source_cache d))
    eqn:F; [reflexivity|].
  pose proof (find_none _ _ F r Hin) as H. simpl in H.
  rewrite Hr, str_eqb_refl in H. discriminate.
Qed.

Lemma is_duplicate_by_hash (d : DB) (url body : str) :
  (exists r, In r (source_cache d) /\ sc_content_hash r = sha256 ext body) ->
  is_duplicate ext d url body = true.
Proof.
  intros [r [Hin Hr]]. unfold is_duplicate, create_content_hash.
  destruct (List.find (fun r => str_eqb (sc_source_url r) url) (source_cache d));
    [reflexivity|].
  destruct (List.find (fun r => str_eqb (sc_content_hash r) (sha256 ext body))
                      (source_cache d)) eqn:F; [reflexivity|].
  pose proof (find_none _ _ F r Hin) as H. simpl in H.
  rewrite Hr, str_eqb_refl in H. discriminate.
Qed.

(** One call of an operation of the persistence layer. *)
Inductive persistence_call : World -> World -> Prop :=
| call_save_article w t c s cat u n r wc rs :
    persistence_call w (snd (save_article ext t c s cat u n r wc rs w))
| call_save_metadata w id tags kws seo ents cap hts :
    persistence_call w (snd (save_metadata id tags kws seo ents cap hts w))
| call_add_to_publish_queue w id p t :
    persistence_call w (snd (add_to_publish_queue id p t w))
| call_update_publish_status w id st msg data :
    persistence_call w (snd (update_publish_status ext id st msg data w))
| call_mark_article_published w id :
    persistence_call w (snd (mark_article_published ext id w)).

(** Any number of such calls, one after the other. *)
Inductive later : World -> World -> Prop :=
| later_now w : later w w
| later_call w1 w2 w3 : persistence_call w1 w2 -> later w2 w3 -> later w1 w3.








(** C8, as the code has it.  [mark_article_published] on an id for which
    no article exists returns normally and changes nothing.  The operation
    of the layer that fails on an unknown id is [update_publish_status]: on
    an id for which no queue entry exists it raises a [ValueError] and
    changes nothing. *)
Theorem unknown_id_behaviour
        (article_id queue_id : Z) (status : PublishStatus.t)
        (error_message : option str) (platform_data : option pyval) (w : World) :
  (forall a, In a (articles (db w)) -> a_id a <> article_id) ->
  (forall q, In q (publish_queue (db w)) -> q_id q <> queue_id) ->
  mark_article_published ext article_id w = (Ok tt, w)
  /\ exists msg,
       update_publish_status ext queue_id status error_message platform_data w
       = (Raise (ValueError msg), w).
Proof.
  intros Ha Hq. split.
  - unfold mark_article_published, bind, get_db. simpl.
    destruct (List.find (fun a => (a_id a =? article_id)%Z) (articles (db w)))
      as [a|] eqn:F; [|reflexivity].
    apply find_some in F. destruct F as [Hin E].
    apply Z.eqb_eq in E. exfalso. exact (Ha a Hin E).
  - unfold update_publish_status, bind, get_db. simpl.
    destruct (List.find (fun q => (q_id q =? queue_id)%Z) (publish_queue (db w)))
      as [q|] eqn:F; [|eexists; reflexivity].
    apply find_some in F. destruct F as [Hin E].
    apply Z.eqb_eq in E. exfalso. exact (Hq q Hin E).
Qed.

End DatabaseFacts.


(** C8 on the empty store. *)
Lemma unknown_id_behaviour_witness :
  Database.mark_article_published Sample.ext 42
    (Runtime.initial Runtime.empty_db)
  = (Ok tt, Runtime.initial Runtime.empty_db).
Proof.
  apply (unknown_id_behaviour Sample.ext 42 7 Schemas.PublishStatus.FAILED None
           None (Runtime.initial Runtime.empty_db)).
  - intros a H. destruct H.
  - intros q H. destruct H.
Defined.

(** C8, as the specification states it, fails: marking an article that
    does not exist as published raises nothing. *)
Lemma mark_article_published_unknown_id_returns :
  ~ exists e,
      fst (Database.mark_article_published Sample.ext 42
             (Runtime.initial Runtime.empty_db)) = Raise e.
Proof.
  intros [e H]. vm_compute in H. discriminate.
Qed.


(** ** Reasoning about stateful computations *)

Section Frames.
Import Runtime.

(** [c] only ever takes a world to one related by [R]. *)
Definition keeps {A} (R : World -> World -> Prop) (c : M A) : Prop :=
  forall w, R w (snd (c w)).

(** Relations that printing and talking to the outside respect. *)
Record frame (R : World -> World -> Prop) : Prop := {
  frame_refl : forall w, R w w;
  frame_trans : forall w1 w2 w3, R w1 w2 -> R w2 w3 -> R w1 w3;
  frame_print : forall l w, R w (snd (print l w));
  frame_tick : forall w,
      R w {| db := db w; clock := S (clock w); stdout := stdout w;
             history := history w |};
}.

Variable R : World -> World -> Prop.
Hypothesis HR : frame R.

Lemma keeps_ret {A} (a : A) : keeps R (ret a).
Proof. intros w. apply (frame_refl R HR). Qed.

Lemma keeps_raise {A} (e : exn) : keeps R (@raise A e).
Proof. intros w. apply (frame_refl R HR). Qed.

Lemma keeps_lift {A} (r : result A) : keeps R (lift r).
Proof. intros w. apply (frame_refl R HR). Qed.

Lemma keeps_get_db : keeps R get_db.
Proof. intros w. apply (frame_refl R HR). Qed.

Lemma keeps_print (l : line) : keeps R (print l).
Proof. intros w. apply (frame_print R HR). Qed.

Lemma keeps_external {A} (f : nat -> A) : keeps R (external f).
Proof. intros w. apply (frame_tick R HR). Qed.

Lemma keeps_external_call {A} (f : nat -> result A) : keeps R (external_call f).
Proof. intros w. apply (frame_tick R HR). Qed.

Lemma keeps_bind {A B} (c : M A) (f : A -> M B) :
  keeps R c -> (forall a, keeps R (f a)) -> keeps R (bind c f).
Proof.
  intros Hc Hf w. unfold bind. specialize (Hc w).
  destruct (c w) as [[a|e] w1]; simpl in *; [|exact Hc].
  eapply (frame_trans R HR); [exact Hc | apply Hf].
Qed.

Lemma keeps_try_except {A} (c : M A) (h : exn -> M A) :
  keeps R c -> (forall e, keeps R (h e)) -> keeps R (try_except c h).
Proof.
  intros Hc Hh w. unfold try_except. specialize (Hc w).
  destruct (c w) as [[a|e] w1]; simpl in *; [exact Hc|].
  eapply (frame_trans R HR); [exact Hc | apply Hh].
Qed.

End Frames.

(** Store and history untouched. *)
Definition same_store (w w' : Runtime.World) : Prop :=
  Runtime.db w' = Runtime.db w /\ Runtime.history w' = Runtime.history w.

Lemma same_store_frame : frame same_store.
Proof.
  split; unfold same_store; simpl; intros.
  - auto.
  - destruct H, H0. split; congruence.
  - auto.
  - auto.
Qed.

Ltac frame_step HR :=
  first
    [ apply (keeps_ret _ HR) | apply (keeps_raise _ HR)
    | apply (keeps_lift _ HR) | apply (keeps_get_db _ HR)
    | apply (keeps_print _ HR) | apply (keeps_external _ HR)
    | apply (keeps_external_call _ HR)
    | apply (keeps_bind _ HR); [|intros ?]
    | apply (keeps_try_except _ HR); [|intros ?]
    | match goal with
      | |- keeps _ (if ?b then _ else _) => destruct b
      | |- keeps _ (match ?x with _ => _ end) => destruct x
      end ].

Ltac frame_auto HR := repeat frame_step HR.

(** ** Publishing *)

Section PublishingFacts.
Import Schemas Config Runtime Database Publishing.
Variable settings : Settings.
Variable ext : Externals.

Lemma publish_to_strapi_keeps article :
  keeps same_store (publish_to_strapi settings ext article).
Proof.
  unfold publish_to_strapi, raise_for_status, response_json.
  frame_auto same_store_frame.
Qed.

Lemma post_to_instagram_keeps article metadata :
  keeps same_store (Instagram.post_to_instagram settings ext article metadata).
Proof.
  unfold Instagram.post_to_instagram.
  frame_auto same_store_frame.
Qed.




End PublishingFacts.



(** ** The publish queue *)

Section QueueFacts.
Import Schemas Config Runtime Database Publishing.
Local Open Scope Z_scope.

Lemma write_queue_row_ids l x :
  map q_id (write_queue_row l x) = map q_id l.
Proof.
  induction l as [|y l IH]; simpl; [reflexivity|].
  destruct (q_id y =? q_id x) eqn:E; simpl.
  - apply Z.eqb_eq in E. congruence.
  - rewrite IH. reflexivity.
Qed.

Lemma write_queue_row_other l x id :
  id <> q_id x ->
  List.find (fun q => q_id q =? id) (write_queue_row l x)
  = List.find (fun q => q_id q =? id) l.
Proof.
  intros Hid. induction l as [|y l IH]; simpl; [reflexivity|].
  destruct (q_id y =? q_id x) eqn:E; simpl.
  - apply Z.eqb_eq in E.
    assert ((q_id x =? id) = false) as -> by (apply Z.eqb_neq; congruence).
    assert ((q_id y =? id) = false) as -> by (apply Z.eqb_neq; congruence).
    reflexivity.
  - destruct (q_id y =? id); [reflexivity | exact IH].
Qed.

Lemma write_queue_row_same l x y :
  List.find (fun q => q_id q =? q_id x) l = Some y ->
  List.find (fun q => q_id q =? q_id x) (write_queue_row l x) = Some x.
Proof.
  induction l as [|z l IH]; simpl; [discriminate|].
  destruct (q_id z =? q_id x) eqn:E; simpl.
  - intros _. rewrite Z.eqb_refl. reflexivity.
  - rewrite E. exact IH.
Qed.

Lemma write_article_row_ids l x :
  map a_id (write_article_row l x) = map a_id l.
Proof.
  induction l as [|y l IH]; simpl; [reflexivity|].
  destruct (a_id y =? a_id x) eqn:E; simpl.
  - apply Z.eqb_eq in E. congruence.
  - rewrite IH. reflexivity.
Qed.

Lemma find_by_id_NoDup (l : list PublishQueue) (e : PublishQueue) :
  NoDup (map q_id l) -> In e l ->
  List.find (fun q => q_id q =? q_id e) l = Some e.
Proof.
  induction l as [|y l IH]; simpl; [tauto|].
  intros Hnd [-> | Hin].
  - rewrite Z.eqb_refl. reflexivity.
  - inversion Hnd as [|? ? Hy Hl]; subst.
    destruct (q_id y =? q_id e) eqn:E; [|apply IH; assumption].
    apply Z.eqb_eq in E. exfalso. apply Hy. rewrite E.
    apply in_map. exact Hin.
Qed.

Variable settings : Settings.
Variable ext : Externals.

(** What one successful call of [update_publish_status] does. *)
Lemma update_publish_status_found id st msg data w q :
  List.find (fun q => q_id q =? id) (publish_queue (db w)) = Some q ->
  exists q' w',
    update_publish_status ext id st msg data w = (Ok tt, w')
    /\ publish_queue (db w') = write_queue_row (publish_queue (db w)) q'
    /\ articles (db w') = articles (db w)
    /\ history w' = history w ++ [(q, q')]
    /\ q_id q' = q_id q
    /\ q_status q' = st
    /\ q_retry_count q'
       = (if PublishStatus.eqb st PublishStatus.FAILED
          then q_retry_count q + 1 else q_retry_count q)
    /\ (st = PublishStatus.FAILED -> q_error_message q' = msg)
    /\ (st = PublishStatus.COMPLETED -> exists t, q_published_time q' = Some t).
Proof.
  intros F. unfold update_publish_status, bind, get_db. simpl. rewrite F.
  destruct st; simpl;
    (destruct data as [v|]; [destruct (truthy_val v)|]); simpl;
    eexists; eexists;
    (split; [reflexivity|]); simpl;
    repeat match goal with |- _ /\ _ => split end;
    try reflexivity; try discriminate;
    intros _; eexists; reflexivity.
Qed.

Lemma mark_article_published_run id w :
  exists w',
    mark_article_published ext id w = (Ok tt, w')
    /\ publish_queue (db w') = publish_queue (db w)
    /\ history w' = history w
    /\ map a_id (articles (db w')) = map a_id (articles (db w)).
Proof.
  unfold mark_article_published, bind, get_db. simpl.
  destruct (List.find (fun a => a_id a =? id) (articles (db w))); simpl.
  - eexists. split; [reflexivity|]. simpl.
    rewrite write_article_row_ids. auto.
  - eexists. split; [reflexivity|]. auto.
Qed.

(** The path of one entry through a drain: nothing, when its article is
    missing; otherwise [pending -> processing -> completed] or
    [pending -> processing -> failed]. *)
Definition outcome_of (q1 q2 : PublishQueue) : Prop :=
  (q_status q2 = PublishStatus.COMPLETED
   /\ q_retry_count q2 = q_retry_count q1
   /\ exists t, q_published_time q2 = Some t)
  \/ (q_status q2 = PublishStatus.FAILED
      /\ q_retry_count q2 = q_retry_count q1 + 1
      /\ exists msg, q_error_message q2 = Some msg).

Definition path_of (article_ids : list Z) (e : PublishQueue)
           (tr : list (PublishQueue * PublishQueue)) : Prop :=
  (tr = [] /\ ~ In (q_article_id e) article_ids)
  \/ exists q1 q2,
       tr = [(e, q1); (q1, q2)]
       /\ In (q_article_id e) article_ids
       /\ q_status e = PublishStatus.PENDING
       /\ q_id q1 = q_id e
       /\ q_status q1 = PublishStatus.PROCESSING
       /\ q_retry_count q1 = q_retry_count e
       /\ q_id q2 = q_id e
       /\ outcome_of q1 q2.

(** The delivery either completes the entry or raises with the store as
    it was. *)
Lemma deliver_spec e article w1 q1 :
  List.find (fun q => q_id q =? q_id e) (publish_queue (db w1)) = Some q1 ->
  (exists w3 q2,
      deliver settings ext e article w1 = (Ok tt, w3)
      /\ history w3 = history w1 ++ [(q1, q2)]
      /\ publish_queue (db w3) = write_queue_row (publish_queue (db w1)) q2
      /\ map a_id (articles (db w3)) = map a_id (articles (db w1))
      /\ q_id q2 = q_id q1
      /\ q_status q2 = PublishStatus.COMPLETED
      /\ q_retry_count q2 = q_retry_count q1
      /\ exists t, q_published_time q2 = Some t)
  \/ (exists ex w2,
         deliver settings ext e article w1 = (Raise ex, w2)
         /\ db w2 = db w1 /\ history w2 = history w1).
Proof.
  intros F1.
  assert (Hsink :
            exists (r : result pyval) w2,
              db w2 = db w1 /\ history w2 = history w1
              /\ deliver settings ext e article w1
                 = match r with
                   | Ok result =>
                       bind (update_publish_status ext (q_id e)
                               PublishStatus.COMPLETED None (Some result))
                            (fun _ =>
                               match q_platform e with
                               | PublishPlatform.STRAPI =>
                                   mark_article_published ext (a_id article)
                               | PublishPlatform.INSTAGRAM => ret tt
                               end) w2
                   | Raise ex => (Raise ex, w2)
                   end).
  { unfold deliver. destruct (q_platform e).
    - destruct (publish_to_strapi settings ext article w1) as [r w2] eqn:E.
      pose proof (publish_to_strapi_keeps settings ext article w1) as K.
      rewrite E in K. destruct K as [K1 K2].
      exists r, w2. split; [exact K1 | split; [exact K2|]].
      unfold bind at 1. rewrite E. destruct r; reflexivity.
    - unfold bind at 1, get_db.
      destruct (Instagram.post_to_instagram settings ext article
                  (hd_error (article_metadata (db w1) article)) w1)
        as [r w2] eqn:E.
      pose proof (post_to_instagram_keeps settings ext article
                    (hd_error (article_metadata (db w1) article)) w1) as K.
      rewrite E in K. destruct K as [K1 K2].
      exists r, w2. split; [exact K1 | split; [exact K2|]].
      unfold bind at 1. rewrite E. destruct r as [result|ex]; [|reflexivity].
      unfold bind, ret.
      destruct (update_publish_status ext (q_id e) PublishStatus.COMPLETED None
                  (Some result) w2) as [[[]|ex] w3]; reflexivity. }
  destruct Hsink as [r [w2 [Hdb2 [Hh2 Hrun]]]]. rewrite Hrun.
  destruct r as [result|ex]; [left | right; exists ex, w2; auto].
  assert (F2 : List.find (fun q => q_id q =? q_id e) (publish_queue (db w2))
               = Some q1) by (rewrite Hdb2; exact F1).
  destruct (update_publish_status_found (q_id e) PublishStatus.COMPLETED
              None (Some result) w2 q1 F2)
    as [q2 [w3 [Hrun3 [Hq3 [Ha3 [Hh3 [Hi3 [Hs3 [Hr3 [_ Ht3]]]]]]]]]].
  simpl in Hr3. unfold bind. rewrite Hrun3.
  destruct (q_platform e).
  - destruct (mark_article_published_run (a_id article) w3)
      as [w4 [Hrun4 [Hq4 [Hh4 Ha4]]]].
    exists w4, q2. rewrite Hrun4, Hh4, Hq4, Ha4, Hh3, Hq3, Ha3, Hh2, Hdb2.
    repeat (split; [first [reflexivity | assumption]|]). apply Ht3. reflexivity.
  - exists w3, q2. unfold ret. rewrite Hh3, Hq3, Ha3, Hh2, Hdb2.
    repeat (split; [first [reflexivity | assumption]|]). apply Ht3. reflexivity.
Qed.

(** One pass of the loop body over an entry that is still pending. *)
Lemma process_entry_spec e w :
  List.find (fun q => q_id q =? q_id e) (publish_queue (db w)) = Some e ->
  q_status e = PublishStatus.PENDING ->
  exists w' tr,
    process_entry settings ext e w = (Ok tt, w')
    /\ history w' = history w ++ tr
    /\ path_of (map a_id (articles (db w))) e tr
    /\ map a_id (articles (db w')) = map a_id (articles (db w))
    /\ forall id, id <> q_id e ->
         List.find (fun q => q_id q =? id) (publish_queue (db w'))
         = List.find (fun q => q_id q =? id) (publish_queue (db w)).
Proof.
  intros F Hpend. unfold process_entry, bind at 1, get_db.
  destruct (List.find (fun a => a_id a =? q_article_id e) (articles (db w)))
    as [article|] eqn:FA.
  2:{ eexists; exists []. split; [reflexivity|]. simpl.
      rewrite app_nil_r. repeat split; auto.
      left. split; [reflexivity|].
      intros Hin. apply in_map_iff in Hin. destruct Hin as [a [Ha Hin]].
      pose proof (find_none _ _ FA a Hin) as H. simpl in H.
      apply Z.eqb_neq in H. congruence. }
  assert (Hart : In (q_article_id e) (map a_id (articles (db w)))).
  { apply find_some in FA. destruct FA as [Hin E]. apply Z.eqb_eq in E.
    rewrite <- E. apply in_map, Hin. }
  destruct (update_publish_status_found (q_id e) PublishStatus.PROCESSING
              None None w e F)
    as [q1 [w1 [Hrun1 [Hq1 [Ha1 [Hh1 [Hi1 [Hs1 [Hr1 _]]]]]]]]].
  simpl in Hr1.
  assert (F1 : List.find (fun q => q_id q =? q_id e) (publish_queue (db w1))
               = Some q1).
  { rewrite Hq1, <- Hi1. eapply write_queue_row_same. rewrite Hi1. exact F. }
  assert (Hother :
            forall q2 queue,
              queue = write_queue_row (publish_queue (db w1)) q2 ->
              q_id q2 = q_id q1 ->
              forall id, id <> q_id e ->
                List.find (fun q => q_id q =? id) queue
                = List.find (fun q => q_id q =? id) (publish_queue (db w))).
  { intros q2 queue -> Hi id Hid. rewrite Hq1.
    rewrite !write_queue_row_other by congruence. reflexivity. }
  unfold try_except, bind at 1. rewrite Hrun1. unfold bind at 1.
  destruct (deliver_spec e article w1 q1 F1)
    as [[w3 [q2 [Hrun3 [Hh3 [Hq3 [Ha3 [Hi3 [Hs3 [Hr3 Ht3]]]]]]]]]
       | [ex [w2 [Hrun2 [Hdb2 Hh2]]]]].
  - rewrite Hrun3. eexists; exists [(e, q1); (q1, q2)].
    split; [reflexivity|]. simpl.
    split; [rewrite Hh3, Hh1, <- app_assoc; reflexivity|].
    split.
    { right. exists q1, q2.
      repeat (split; [first [assumption | reflexivity | congruence]|]).
      left. auto. }
    split; [rewrite Ha3, Ha1; reflexivity|].
    intros id Hid. eapply Hother; eauto.
  - rewrite Hrun2. unfold bind, print.
    set (w2' := {| db := db w2; clock := clock w2;
                   stdout := stdout w2 ++ [ErrorPublishing ex];
                   history := history w2 |}).
    assert (F2 : List.find (fun q => q_id q =? q_id e) (publish_queue (db w2'))
                 = Some q1) by (simpl; rewrite Hdb2; exact F1).
    destruct (update_publish_status_found (q_id e) PublishStatus.FAILED
                (Some (exn_message ex)) None w2' q1 F2)
      as [q2 [w3 [Hrun3 [Hq3 [Ha3 [Hh3 [Hi3 [Hs3 [Hr3 [Hm3 _]]]]]]]]]].
    simpl in Hr3, Hq3, Ha3, Hh3. rewrite Hrun3.
    exists w3, [(e, q1); (q1, q2)].
    split; [reflexivity|].
    split; [rewrite Hh3, Hh2, Hh1, <- app_assoc; reflexivity|].
    split.
    { right. exists q1, q2.
      repeat (split; [first [assumption | reflexivity | congruence]|]).
      right. split; [exact Hs3 | split; [exact Hr3|]].
      eexists. apply Hm3. reflexivity. }
    split; [rewrite Ha3, Hdb2, Ha1; reflexivity|].
    intros id Hid. eapply (Hother q2); eauto. rewrite Hq3, Hdb2. reflexivity.
Qed.

Lemma for_each_process_entry_spec l : forall w,
  NoDup (map q_id l) ->
  (forall e, In e l ->
             List.find (fun q => q_id q =? q_id e) (publish_queue (db w)) = Some e
             /\ q_status e = PublishStatus.PENDING) ->
  exists w' trs,
    for_each l (process_entry settings ext) w = (Ok tt, w')
    /\ history w' = history w ++ List.concat trs
    /\ Forall2 (path_of (map a_id (articles (db w)))) l trs.
Proof.
  induction l as [|e l IH]; intros w Hnd Hl.
  - exists w, []. simpl. rewrite app_nil_r. repeat split. constructor.
  - inversion Hnd as [|? ? He Hnd']; subst.
    destruct (Hl e (or_introl eq_refl)) as [F Hp].
    destruct (process_entry_spec e w F Hp)
      as [w1 [tr [Hrun [Hh [Hpath [Ha Hother]]]]]].
    destruct (IH w1 Hnd') as [w' [trs [Hrun' [Hh' Hpaths]]]].
    { intros e' Hin. destruct (Hl e' (or_intror Hin)) as [F' Hp'].
      split; [|exact Hp'].
      rewrite Hother; [exact F'|].
      intros Heq. apply He. rewrite <- Heq. apply in_map, Hin. }
    exists w', (tr :: trs). split.
    { simpl. unfold bind. rewrite Hrun. exact Hrun'. }
    split.
    { rewrite Hh', Hh. simpl. rewrite <- app_assoc. reflexivity. }
    constructor; [exact Hpath|].
    rewrite Ha in Hpaths. exact Hpaths.
Qed.

(** C1.  A drain over a queue whose entries have distinct ids returns
    normally.  The status updates it commits are, entry by entry in the
    order of the pending entries, either none (the entry's article does not
    exist, the entry is skipped) or exactly two: from [pending] to
    [processing] with [retry_count] unchanged, then from [processing]
    either to [completed], with [retry_count] unchanged and
    [published_time] set, or to [failed], with [retry_count] increased by
    exactly 1 and the error message recorded. *)
Theorem process_publish_queue_transitions (w : World) :
  NoDup (map q_id (publish_queue (db w))) ->
  exists w' trs,
    process_publish_queue settings ext w = (Ok tt, w')
    /\ history w' = history w ++ List.concat trs
    /\ Forall2 (path_of (map a_id (articles (db w))))
               (get_pending_publications (db w) None) trs.
Proof.
  intros Hnd. unfold process_publish_queue, bind at 1, get_db.
  destruct (for_each_process_entry_spec
              (get_pending_publications (db w) None) w)
    as [w' [trs [Hrun [Hh Hpaths]]]].
  - unfold get_pending_publications. apply NoDup_map_filter, Hnd.
  - unfold get_pending_publications. intros e Hin.
    apply filter_In in Hin. destruct Hin as [Hin Hs]. split.
    + apply find_by_id_NoDup; assumption.
    + destruct (q_status e); simpl in Hs; congruence.
  - destruct (get_pending_publications (db w) None) as [|e l] eqn:P.
    + inversion Hpaths; subst. eexists; exists []. split; [reflexivity|].
      simpl. rewrite app_nil_r. split; [reflexivity | constructor].
    + exists w', trs. auto.
Qed.

End QueueFacts.

(** C1 on the sample store. *)
Lemma process_publish_queue_transitions_witness :
  exists w' trs,
    Publishing.process_publish_queue Sample.settings Sample.ext
      (Runtime.initial Sample.store) = (Ok tt, w')
    /\ Runtime.history w' = List.concat trs
    /\ Forall2 (path_of [1%Z])
               [ Sample.entry 1 1 Schemas.PublishPlatform.STRAPI;
                 Sample.entry 2 9 Schemas.PublishPlatform.INSTAGRAM ] trs.
Proof.
  apply (process_publish_queue_transitions Sample.settings Sample.ext
           (Runtime.initial Sample.store)).
  simpl. repeat constructor; simpl; intuition discriminate.
Defined.

(** Scenario D: a drain over one pending CMS entry whose sink call times
    out leaves the entry [failed] with [retry_count = 1] and the article a
    draft. *)
Example drain_timeout :
  let w' := snd (Publishing.process_publish_queue Sample.settings Sample.ext
                   (Runtime.initial Sample.store)) in
  map (fun q => (Schemas.q_status q, Schemas.q_retry_count q,
                 Schemas.q_error_message q))
      (Runtime.publish_queue (Runtime.db w'))
  = [ (Schemas.PublishStatus.FAILED, 1%Z, Some (lit "Read timed out."));
      (Schemas.PublishStatus.PENDING, 0%Z, None) ]
  /\ map Schemas.a_status (Runtime.articles (Runtime.db w'))
     = [Schemas.ArticleStatus.DRAFT].
Proof. vm_compute. split; reflexivity. Qed.

(** ** The orchestrator *)

Section PipelineFacts.
Import Schemas Config Runtime Database Ingestion Pipeline.
Variable settings : Settings.
Variable ext : Externals.

(** The publish queue and the history of its updates untouched. *)
Definition same_queue (w w' : World) : Prop :=
  publish_queue (db w') = publish_queue (db w) /\ history w' = history w.

Lemma same_queue_frame : frame same_queue.
Proof.
  split; unfold same_queue; simpl; intros.
  - auto.
  - destruct H, H0. split; congruence.
  - auto.
  - auto.
Qed.

Lemma same_store_queue {A} (c : M A) : keeps same_store c -> keeps same_queue c.
Proof.
  intros H w. destruct (H w) as [H1 H2]. split; [rewrite H1 | rewrite H2];
    reflexivity.
Qed.

Lemma mark_article_published_keeps id :
  keeps same_queue (mark_article_published ext id).
Proof.
  intros w. unfold same_queue, mark_article_published, bind, get_db. simpl.
  destruct (List.find (fun a => (a_id a =? id)%Z) (articles (db w)));
    simpl; auto.
Qed.

Lemma save_article_keeps t c s cat u n r wc rs :
  keeps same_queue (save_article ext t c s cat u n r wc rs).
Proof.
  intros w. unfold same_queue, save_article, bind, get_db. simpl.
  destruct u as [u|]; simpl; [|auto].
  destruct (truthy u && truthy c); simpl; auto.
Qed.

Lemma save_metadata_keeps id tags kws seo ents cap hts :
  keeps same_queue (save_metadata id tags kws seo ents cap hts).
Proof. intros w. split; reflexivity. Qed.

Lemma analyze_with_gemini_keeps raw cat u n :
  keeps same_store (Generation.analyze_with_gemini ext raw cat u n).
Proof.
  unfold Generation.analyze_with_gemini, Generation.load_system_prompt.
  frame_auto same_store_frame.
Qed.

Lemma cms_delivery_keeps article : keeps same_queue (cms_delivery settings ext article).
Proof.
  unfold cms_delivery.
  apply (keeps_try_except _ same_queue_frame);
    [|intros e; apply (keeps_print _ same_queue_frame)].
  apply (keeps_bind _ same_queue_frame).
  - apply same_store_queue, publish_to_strapi_keeps.
  - intros _. apply mark_article_published_keeps.
Qed.

Lemma social_delivery_keeps article :
  keeps same_queue (social_delivery settings ext article).
Proof.
  unfold social_delivery.
  apply (keeps_try_except _ same_queue_frame);
    [|intros e; apply (keeps_print _ same_queue_frame)].
  apply (keeps_bind _ same_queue_frame);
    [apply (keeps_get_db _ same_queue_frame)|].
  intros d. apply (keeps_bind _ same_queue_frame);
    [|intros _; apply (keeps_ret _ same_queue_frame)].
  apply same_store_queue, post_to_instagram_keeps.
Qed.

Lemma publishing_stage_keeps article :
  keeps same_queue (publishing_stage settings ext article).
Proof.
  unfold publishing_stage.
  apply (keeps_bind _ same_queue_frame); [apply cms_delivery_keeps|].
  intros _. destruct (instagram_enabled settings);
    [apply social_delivery_keeps | apply (keeps_ret _ same_queue_frame)].
Qed.

Lemma process_article_keeps dry_run raw_article c :
  keeps same_queue (process_article settings ext dry_run raw_article c).
Proof.
  unfold process_article, call_with_keywords.
  repeat first
    [ apply same_store_queue, analyze_with_gemini_keeps
    | apply save_article_keeps
    | apply save_metadata_keeps
    | apply publishing_stage_keeps
    | frame_step same_queue_frame ].
Qed.

Lemma process_articles_keeps dry_run l : forall c,
  keeps same_queue (process_articles settings ext dry_run l c).
Proof.
  induction l as [|a l IH]; intros c; simpl.
  - apply (keeps_ret _ same_queue_frame).
  - apply (keeps_bind _ same_queue_frame);
      [apply process_article_keeps | intros c'; apply IH].
Qed.

Lemma run_pipeline_keeps raw_articles dry_run max_articles :
  keeps same_queue (run_pipeline settings ext raw_articles dry_run max_articles).
Proof.
  unfold run_pipeline. destruct raw_articles as [|a l].
  - apply (keeps_ret _ same_queue_frame).
  - apply (keeps_bind _ same_queue_frame);
      [apply process_articles_keeps
      | intros c; apply (keeps_ret _ same_queue_frame)].
Qed.

(** Standard output only grows. *)
Definition grows (w w' : World) : Prop :=
  exists out, stdout w' = stdout w ++ out.

Lemma grows_frame : frame grows.
Proof.
  split; unfold grows; simpl; intros.
  - exists []. rewrite app_nil_r. reflexivity.
  - destruct H as [o1 H1], H0 as [o2 H2]. exists (o1 ++ o2).
    rewrite H2, H1, app_assoc. reflexivity.
  - eexists. reflexivity.
  - exists []. rewrite app_nil_r. reflexivity.
Qed.

Lemma mark_article_published_grows id :
  keeps grows (mark_article_published ext id).
Proof.
  intros w. unfold grows, mark_article_published, bind, get_db. simpl.
  destruct (List.find (fun a => (a_id a =? id)%Z) (articles (db w))); simpl.
  - eexists. reflexivity.
  - exists []. rewrite app_nil_r. reflexivity.
Qed.

Lemma publish_to_strapi_prints article w :
  exists out,
    stdout (snd (Publishing.publish_to_strapi settings ext article w))
    = stdout w ++ PublishingToStrapi (firstn 50 (a_title article)) :: out.
Proof.
  unfold Publishing.publish_to_strapi.
  match goal with
  | |- context [bind (print ?l) ?f] =>
      assert (K : keeps grows (f tt))
  end.
  { unfold Publishing.raise_for_status, Publishing.response_json.
    frame_auto grows_frame. }
  unfold bind at 1. simpl.
  match goal with
  | |- context [snd (?c ?w1)] => destruct (K w1) as [out Hout]
  end.
  exists out. rewrite Hout. simpl. rewrite <- app_assoc. reflexivity.
Qed.

Lemma post_to_instagram_prints article metadata w :
  instagram_enabled settings = true ->
  exists out,
    stdout (snd (Instagram.post_to_instagram settings ext article metadata w))
    = stdout w ++ InstagramAutomation :: out.
Proof.
  intros En. unfold Instagram.post_to_instagram. rewrite En. simpl.
  match goal with
  | |- context [bind (print ?l) ?f] =>
      assert (K : keeps grows (f tt))
  end.
  { frame_auto grows_frame. }
  unfold bind at 1. simpl.
  match goal with
  | |- context [snd (?c ?w1)] => destruct (K w1) as [out Hout]
  end.
  exists out. rewrite Hout. simpl. rewrite <- app_assoc. reflexivity.
Qed.

Lemma post_to_instagram_grows article metadata :
  keeps grows (Instagram.post_to_instagram settings ext article metadata).
Proof.
  unfold Instagram.post_to_instagram. frame_auto grows_frame.
Qed.

(** The CMS block never raises; it prints that it publishes, and the
    failure when there is one. *)
Lemma cms_delivery_spec article w :
  exists w1 out,
    cms_delivery settings ext article w = (Ok tt, w1)
    /\ stdout w1 = stdout w ++ out
    /\ In (PublishingToStrapi (firstn 50 (a_title article))) out
    /\ forall e w0,
         Publishing.publish_to_strapi settings ext article w = (Raise e, w0) ->
         In (StrapiPublishFailed e) out.
Proof.
  unfold cms_delivery, try_except, bind.
  destruct (publish_to_strapi_prints article w) as [out Hout].
  destruct (Publishing.publish_to_strapi settings ext article w)
    as [[v|e] w0] eqn:P; simpl in Hout.
  - destruct (mark_article_published_run ext (a_id article) w0)
      as [w1 [Hrun _]].
    destruct (mark_article_published_grows (a_id article) w0) as [out' Hout'].
    rewrite Hrun in *. simpl in Hout'.
    exists w1, (PublishingToStrapi (firstn 50 (a_title article)) :: out ++ out').
    split; [reflexivity|]. split.
    { rewrite Hout', Hout, <- app_assoc. reflexivity. }
    split; [left; reflexivity | intros e w0' H; discriminate].
  - eexists.
    exists (PublishingToStrapi (firstn 50 (a_title article))
              :: out ++ [StrapiPublishFailed e]).
    split; [reflexivity|]. simpl. split.
    { rewrite Hout, <- app_assoc. reflexivity. }
    split; [left; reflexivity|].
    intros e' w0' [= <- <-]. right. apply in_or_app. right. left. reflexivity.
Qed.

(** So does the social block. *)
Lemma social_delivery_spec article w :
  exists w2 out,
    social_delivery settings ext article w = (Ok tt, w2)
    /\ stdout w2 = stdout w ++ out
    /\ (instagram_enabled settings = true -> In InstagramAutomation out)
    /\ forall e w0,
         Instagram.post_to_instagram settings ext article
           (hd_error (Publishing.article_metadata (db w) article)) w
         = (Raise e, w0) ->
         In (InstagramPostFailed e) out.
Proof.
  unfold social_delivery, try_except, bind, get_db.
  pose proof (post_to_instagram_prints article
                (hd_error (Publishing.article_metadata (db w) article)) w)
    as Hp.
  pose proof (post_to_instagram_grows article
                (hd_error (Publishing.article_metadata (db w) article)) w)
    as Hg.
  destruct (Instagram.post_to_instagram settings ext article
              (hd_error (Publishing.article_metadata (db w) article)) w)
    as [[v|e] w0] eqn:P; simpl in Hp, Hg; destruct Hg as [out Hout].
  - exists w0, out. split; [reflexivity|]. split; [exact Hout|].
    split; [|intros e w0' H; discriminate].
    intros En. destruct (Hp En) as [out' Hout'].
    rewrite Hout in Hout'. apply app_inv_head in Hout'. subst. left; reflexivity.
  - eexists. exists (out ++ [InstagramPostFailed e]).
    split; [reflexivity|]. simpl. split.
    { rewrite Hout, <- app_assoc. reflexivity. }
    split.
    + intros En. destruct (Hp En) as [out' Hout'].
      rewrite Hout in Hout'. apply app_inv_head in Hout'. subst.
      left; reflexivity.
    + intros e' w0' [= <- <-]. apply in_or_app. right. left. reflexivity.
Qed.

(** C3, as the code has it.  A run of the orchestrator leaves the publish
    queue as it found it: no entry is created.  The publishing stage of the
    item loop calls the CMS publisher directly and then, if enabled, the
    social publisher.  Neither block raises: the CMS block prints that it
    publishes and, when the publisher raises, the failure; the social block
    runs from whatever world the CMS block left, whether that one failed or
    not, and prints its own failure when it has one. *)
Theorem publishing_stage_spec
        (raw_articles : list NewsArticle) (dry_run : bool)
        (max_articles : option Z) (article : Article) (w : World) :
  publish_queue
    (db (snd (run_pipeline settings ext raw_articles dry_run max_articles w)))
  = publish_queue (db w)
  /\ exists w1 w2 out1 out2,
       cms_delivery settings ext article w = (Ok tt, w1)
       /\ stdout w1 = stdout w ++ out1
       /\ In (PublishingToStrapi (firstn 50 (a_title article))) out1
       /\ (forall e w0,
             Publishing.publish_to_strapi settings ext article w = (Raise e, w0) ->
             In (StrapiPublishFailed e) out1)
       /\ social_delivery settings ext article w1 = (Ok tt, w2)
       /\ stdout w2 = stdout w1 ++ out2
       /\ (instagram_enabled settings = true -> In InstagramAutomation out2)
       /\ (forall e w0,
             Instagram.post_to_instagram settings ext article
               (hd_error (Publishing.article_metadata (db w1) article)) w1
             = (Raise e, w0) ->
             In (InstagramPostFailed e) out2)
       /\ publishing_stage settings ext article w
          = (Ok tt, if instagram_enabled settings then w2 else w1)
       /\ publish_queue (db (if instagram_enabled settings then w2 else w1))
          = publish_queue (db w).
Proof.
  split.
  { apply (run_pipeline_keeps raw_articles dry_run max_articles w). }
  destruct (cms_delivery_spec article w) as [w1 [out1 [H1 [H2 [H3 H4]]]]].
  destruct (social_delivery_spec article w1) as [w2 [out2 [H5 [H6 [H7 H8]]]]].
  exists w1, w2, out1, out2.
  repeat (split; [assumption|]).
  assert (Hstage : publishing_stage settings ext article w
                   = (Ok tt, if instagram_enabled settings then w2 else w1)).
  { unfold publishing_stage, bind. rewrite H1.
    destruct (instagram_enabled settings); [exact H5 | reflexivity]. }
  split; [exact Hstage|].
  pose proof (publishing_stage_keeps article w) as K.
  rewrite Hstage in K. destruct K as [K _]. exact K.
Qed.

(** C4.  When the generation service raises on an item that is not a
    duplicate, the loop body returns normally with the counters as they
    were; the store is unchanged, so no article, no metadata and no
    dedup-cache record was created; the error is printed; and the loop goes
    on with the remaining items. *)
Theorem generation_failure_skips_item
        (dry_run : bool) (raw_article : NewsArticle) (rest : list NewsArticle)
        (c : counts) (w : World) (system_prompt : str) (e : exn) :
  is_duplicate ext (db w) (url raw_article) (content raw_article) = false ->
  prompt_file ext = Ok system_prompt ->
  generate_content ext (clock w) system_prompt
    (Generation.user_prompt (content raw_article)
       (ArticleCategory.value (category raw_article))
       (Some (url raw_article)) (Some (source raw_article)))
  = Raise e ->
  exists w1,
    process_article settings ext dry_run raw_article c w = (Ok c, w1)
    /\ db w1 = db w
    /\ stdout w1
       = stdout w
         ++ [ AnalyzingContent (ArticleCategory.value (category raw_article));
              ErrorAnalyzing e; ErrorProcessingArticle e ]
    /\ process_articles settings ext dry_run (raw_article :: rest) c w
       = process_articles settings ext dry_run rest c w1.
Proof.
  intros Hdup Hprompt Hgen.
  assert (Hrun :
    process_article settings ext dry_run raw_article c w
    = (Ok c,
       {| db := db w; clock := S (clock w);
          stdout := stdout w
            ++ [ AnalyzingContent (ArticleCategory.value (category raw_article));
                 ErrorAnalyzing e; ErrorProcessingArticle e ];
          history := history w |})).
  { unfold process_article, bind at 1, get_db. rewrite Hdup.
    unfold try_except at 1, bind at 1.
    assert (Ha :
      Generation.analyze_with_gemini ext (content raw_article)
        (ArticleCategory.value (category raw_article))
        (Some (url raw_article)) (Some (source raw_article)) w
      = (Raise e,
         {| db := db w; clock := S (clock w);
            stdout := stdout w
              ++ [ AnalyzingContent (ArticleCategory.value (category raw_article));
                   ErrorAnalyzing e ];
            history := history w |})).
    { unfold Generation.analyze_with_gemini, Generation.load_system_prompt.
      unfold bind at 1, print at 1. unfold bind at 1, lift at 1.
      rewrite Hprompt. unfold try_except, bind at 1, external_call.
      simpl. rewrite Hgen. unfold bind, print, raise. simpl.
      rewrite <- app_assoc. reflexivity. }
    rewrite Ha. unfold bind, print, ret. simpl.
    rewrite <- app_assoc. reflexivity. }
  eexists. split; [exact Hrun|]. simpl.
  split; [reflexivity|]. split; [reflexivity|].
  unfold bind. rewrite Hrun. reflexivity.
Qed.

End PipelineFacts.

(** C4 on an empty store, with a generation service that is out of quota. *)
Lemma generation_failure_skips_item_witness :
  exists w1,
    Pipeline.process_article Sample.settings Sample.ext false Sample.item
      {| Pipeline.processed_count := 0; Pipeline.skipped_count := 0 |}
      (Runtime.initial Runtime.empty_db)
    = (Ok {| Pipeline.processed_count := 0; Pipeline.skipped_count := 0 |}, w1)
    /\ Runtime.db w1 = Runtime.empty_db.
Proof.
  destruct (generation_failure_skips_item Sample.settings Sample.ext false
              Sample.item [] {| Pipeline.processed_count := 0;
                                Pipeline.skipped_count := 0 |}
              (Runtime.initial Runtime.empty_db)
              (lit "You write institutional analysis.")
              (ServiceError (lit "quota exceeded"))
              eq_refl eq_refl eq_refl) as [w1 [H1 [H2 _]]].
  exists w1. split; [exact H1 | exact H2].
Defined.

(** C3, as the specification states it, fails: a run that is not a dry run
    persists an article and leaves the publish queue empty. *)
Lemma run_pipeline_creates_no_queue_entry :
  map Schemas.a_id
      (Runtime.articles
         (Runtime.db
            (snd (Pipeline.run_pipeline Sample.settings Sample.ext_ok
                    [Sample.item] false None
                    (Runtime.initial Runtime.empty_db)))))
  = [1%Z]
  /\ Runtime.publish_queue
       (Runtime.db
          (snd (Pipeline.run_pipeline Sample.settings Sample.ext_ok
                  [Sample.item] false None
                  (Runtime.initial Runtime.empty_db))))
     = [].
Proof. vm_compute. split; reflexivity. Qed.

(** ** The matcher *)

Section MatcherFacts.
Import Re.

(** Patterns whose every match sets group 1. *)
Fixpoint captures (r : re) : bool :=
  match r with
  | Group _ => true
  | Seq a b => captures a || captures b
  | Alt a b => captures a && captures b
  | _ => false
  end.

Definition is_set (g : capture) : Prop := g <> None.

Lemma rep_continues fl c lo hi greedy r : forall n p pv k o,
  rep fl c lo hi greedy n p pv r k = Some o ->
  exists cu', k cu' = Some o.
Proof.
  induction r as [|x r IH]; intros n p pv k o H; simpl in H;
    repeat match type of H with
           | context [if ?b then _ else _] => destruct b eqn:?
           | context [match k ?cu with _ => _ end] => destruct (k cu) eqn:?
           | context [match rep ?a ?b ?c ?d ?e ?f ?g ?h ?i ?j with _ => _ end] =>
               destruct (rep a b c d e f g h i j) eqn:?
           end;
    try discriminate;
    try (injection H as <-);
    eauto.
Qed.

(** A successful match ran its continuation to success, and on the way
    never unset the group; a capturing pattern has set it. *)
Lemma m_continues fl r : forall cu g k o,
  m fl r cu g k = Some o ->
  exists cu' g',
    k cu' g' = Some o
    /\ (is_set g -> is_set g')
    /\ (captures r = true -> is_set g').
Proof.
  induction r as [s|c|c lo hi greedy|a IHa b IHb|a IHa b IHb|a IHa|a IHa| |];
    intros cu g k o; simpl.
  - destruct (eat fl s cu); [|discriminate].
    intros H. eexists; eexists. split; [exact H|]. split; [auto | discriminate].
  - destruct (rest cu) as [|x r']; [discriminate|].
    destruct (cls_match fl c x); [|discriminate].
    intros H. eexists; eexists. split; [exact H|]. split; [auto | discriminate].
  - intros H. apply rep_continues in H. destruct H as [cu' H].
    eexists; eexists. split; [exact H|]. split; [auto | discriminate].
  - intros H. apply IHa in H. destruct H as [cu1 [g1 [H [M1 C1]]]].
    apply IHb in H. destruct H as [cu2 [g2 [H [M2 C2]]]].
    exists cu2, g2. split; [exact H|]. split; [auto|].
    intros C. apply orb_true_iff in C. destruct C; auto.
  - destruct (m fl a cu g k) as [o'|] eqn:E.
    + intros [= <-]. apply IHa in E. destruct E as [cu' [g' [H [M1 C1]]]].
      exists cu', g'. split; [exact H|]. split; [auto|].
      intros C. apply andb_true_iff in C. destruct C; auto.
    + intros H. apply IHb in H. destruct H as [cu' [g' [H [M1 C1]]]].
      exists cu', g'. split; [exact H|]. split; [auto|].
      intros C. apply andb_true_iff in C. destruct C; auto.
  - intros H. apply IHa in H. destruct H as [cu1 [g1 [H _]]].
    eexists; eexists. split; [exact H|]. split; intros _; discriminate.
  - destruct (m fl a cu g (fun cu' g' => Some (pos cu', g'))); [|discriminate].
    intros H. eexists; eexists. split; [exact H|]. split; [auto | discriminate].
  - destruct (at_bol fl cu); [|discriminate].
    intros H. eexists; eexists. split; [exact H|]. split; [auto | discriminate].
  - destruct (at_eol fl cu); [|discriminate].
    intros H. eexists; eexists. split; [exact H|]. split; [auto | discriminate].
Qed.

Lemma match_at_group fl r cu mt :
  captures r = true -> match_at fl r cu = Some mt -> is_set (m_group mt).
Proof.
  intros C. unfold match_at.
  destruct (m fl r cu None (fun cu' g => Some (pos cu', g))) as [[e g]|] eqn:E;
    [|discriminate].
  intros [= <-]. simpl. apply m_continues in E.
  destruct E as [cu' [g' [H [_ S]]]]. injection H as _ <-. auto.
Qed.

Lemma search_at_group fl r s : forall p pv mt,
  captures r = true -> search_at fl r p pv s = Some mt -> is_set (m_group mt).
Proof.
  induction s as [|x s IH]; intros p pv mt C; simpl.
  - destruct (match_at fl r (Cursor p pv [])) eqn:E; [|discriminate].
    intros [= <-]. eapply match_at_group; eauto.
  - destruct (match_at fl r (Cursor p pv (x :: s))) eqn:E.
    + intros [= <-]. eapply match_at_group; eauto.
    + apply IH, C.
Qed.

(** A capturing pattern always yields a group 1. *)
Lemma search_group1 fl r s mt :
  captures r = true -> search fl r s = Some mt ->
  exists g, group1 s mt = Some g.
Proof.
  intros C H. apply search_at_group in H; [|exact C].
  unfold group1. destruct (m_group mt) as [[a b]|]; [eauto|].
  exfalso. apply H. reflexivity.
Qed.

End MatcherFacts.

(** ** Splitting *)

Section SplitFacts.

Lemma split_go_cons sep s : forall maxsplit skip cur,
  exists h t, split_go sep maxsplit skip cur s = h :: t.
Proof.
  induction s as [|c s IH]; intros maxsplit skip cur; simpl.
  - eauto.
  - destruct skip; [|apply IH].
    destruct (match maxsplit with Some 0 => false | _ => true end
              && startswith sep (c :: s)); [eauto | apply IH].
Qed.

(** With no split left, the rest is one piece. *)
Lemma split_go_exhausted sep s : forall skip cur,
  split_go sep (Some 0) skip cur s = [rev cur ++ skipn skip s].
Proof.
  induction s as [|c s IH]; intros skip cur; simpl.
  - rewrite skipn_nil, app_nil_r. reflexivity.
  - destruct skip; simpl.
    + rewrite IH. simpl. rewrite <- app_assoc. reflexivity.
    + apply IH.
Qed.

Lemma find_cons_miss sub c s :
  startswith sub (c :: s) = false ->
  find sub (c :: s) = option_map S (find sub s).
Proof. intros H. simpl find. rewrite H. reflexivity. Qed.

Lemma find_hit sub s : startswith sub s = true -> find sub s = Some 0.
Proof. intros H. destruct s; simpl; rewrite H; reflexivity. Qed.

(** [s.split(sep, 1)] when [sep] occurs: the text before its first
    occurrence, the text after. *)
Lemma split_once sep s : forall i cur,
  sep <> [] ->
  find sep s = Some i ->
  split_go sep (Some 1) 0 cur s
  = [rev cur ++ firstn i s; skipn (i + List.length sep) s].
Proof.
  induction s as [|c s IH]; intros i cur Hsep F.
  - simpl in F. destruct sep; [congruence | discriminate].
  - simpl split_go. destruct (startswith sep (c :: s)) eqn:E; simpl andb; cbv iota.
    + rewrite (find_hit _ _ E) in F. injection F as <-.
      simpl option_map. rewrite split_go_exhausted.
      rewrite app_nil_r. simpl.
      destruct sep as [|x sep]; [congruence|]. simpl.
      rewrite Nat.sub_0_r. reflexivity.
    + rewrite (find_cons_miss _ _ _ E) in F.
      destruct (find sep s) as [j|] eqn:Fj; [|discriminate].
      injection F as <-. rewrite (IH j (c :: cur) Hsep eq_refl).
      simpl. rewrite <- app_assoc. reflexivity.
Qed.

(** The first piece of [s.split(sep)]. *)
Lemma split_go_first sep s : forall i cur,
  sep <> [] ->
  find sep s = Some i ->
  exists t, split_go sep None 0 cur s = (rev cur ++ firstn i s) :: t.
Proof.
  induction s as [|c s IH]; intros i cur Hsep F.
  - simpl in F. destruct sep; [congruence | discriminate].
  - simpl split_go. destruct (startswith sep (c :: s)) eqn:E; simpl andb; cbv iota.
    + rewrite (find_hit _ _ E) in F. injection F as <-.
      rewrite app_nil_r. eauto.
    + rewrite (find_cons_miss _ _ _ E) in F.
      destruct (find sep s) as [j|] eqn:Fj; [|discriminate].
      injection F as <-. destruct (IH j (c :: cur) Hsep eq_refl) as [t Ht].
      exists t. rewrite Ht. simpl. rewrite <- app_assoc. reflexivity.
Qed.

End SplitFacts.

(** ** The response parser *)

Section ParserFacts.
Import Re Analysis.
Local Open Scope result_scope.

Ltac group_of S g Hg :=
  match type of S with
  | search ?fl ?r ?s = Some ?mt =>
      destruct (search_group1 fl r s mt eq_refl S) as [g Hg]
  end.

Lemma group1_strip_ok s mt g :
  group1 s mt = Some g -> group1_strip s mt = Ok (strip g).
Proof. intros H. unfold group1_strip. rewrite H. reflexivity. Qed.

Lemma split_response_ok response_text :
  exists article_content metadata_section,
    split_response response_text = Ok (article_content, metadata_section).
Proof.
  unfold split_response, contains.
  destruct (find METADATA_MARK response_text) as [i|] eqn:F; [|eauto].
  unfold split. rewrite (split_once _ _ i []) by (discriminate || exact F).
  set (rest := skipn _ response_text).
  destruct (split_go_cons END_METADATA_MARK rest None 0 []) as [h [t Ht]].
  unfold unpack2, rbind. rewrite Ht. simpl. eauto.
Qed.

Lemma extract_title_ok article_content :
  exists title body, extract_title article_content = Ok (title, body).
Proof.
  unfold extract_title.
  destruct (search multiline title_re article_content) as [mt|] eqn:S.
  - group_of S g Hg.
    rewrite (group1_strip_ok _ _ _ Hg). simpl. eauto.
  - unfold split.
    destruct (split_go_cons [NL] article_content None 0 []) as [h [t Ht]].
    rewrite Ht. simpl. eauto.
Qed.

Lemma extract_summary_ok article_content :
  exists summary, extract_summary article_content = Ok summary.
Proof.
  unfold extract_summary.
  destruct (search dotall_ignorecase summary_re article_content) as [mt|] eqn:S.
  - group_of S g Hg.
    rewrite (group1_strip_ok _ _ _ Hg). simpl. eauto.
  - destruct (filter (fun p => truthy (strip p))
                     (split [NL; NL] None article_content)); simpl; eauto.
Qed.

(** The keywords the parser reads off a metadata block. *)
Definition keywords_field (metadata_section : str) : list str :=
  match search no_flags keywords_re metadata_section with
  | Some mt =>
      match group1 metadata_section mt with
      | Some g => map strip (split (lit ",") None g)
      | None => []
      end
  | None => []
  end.

(** The block has no [ENTITIES] value, or one that [json.loads] rejects. *)
Definition entities_missing_or_malformed (json_loads : str -> option pyval)
           (metadata_section : str) : Prop :=
  match search dotall entities_re metadata_section with
  | Some mt =>
      match group1 metadata_section mt with
      | Some g => json_loads g = None
      | None => True
      end
  | None => True
  end.

Lemma metadata_dict v1 v2 v3 v4 v5 :
  dict_set
    (dict_set
       (dict_set
          (dict_set (dict_set [] (lit "seo_description") v1)
                    (lit "keywords") v2)
          (lit "entities") v3)
       (lit "category") v4)
    (lit "instagram_summary") v5
  = [ (lit "seo_description", v1); (lit "keywords", v2); (lit "entities", v3);
      (lit "category", v4); (lit "instagram_summary", v5) ].
Proof. reflexivity. Qed.

Lemma metadata_fields v1 v2 v3 v4 v5 :
  let d := [ (lit "seo_description", v1); (lit "keywords", v2);
             (lit "entities", v3); (lit "category", v4);
             (lit "instagram_summary", v5) ] in
  dict_get d (lit "seo_description") = Ok v1
  /\ dict_get d (lit "keywords") = Ok v2
  /\ dict_get d (lit "entities") = Ok v3
  /\ dict_get d (lit "instagram_summary") = Ok v5.
Proof. repeat split. Qed.

Lemma parse_metadata_ok json_loads metadata_section summary :
  exists seo ents cat ig,
    parse_metadata json_loads metadata_section summary
    = Ok [ (lit "seo_description", VStr seo);
           (lit "keywords", VList (map VStr (keywords_field metadata_section)));
           (lit "entities", ents);
           (lit "category", VStr cat);
           (lit "instagram_summary", VStr ig) ]
    /\ (entities_missing_or_malformed json_loads metadata_section ->
        ents = VDict []).
Proof.
  unfold parse_metadata, keywords_field, entities_missing_or_malformed.
  destruct metadata_section as [|c0 ms0] eqn:Ems.
  { simpl truthy. cbv iota. do 4 eexists. split; [reflexivity | auto]. }
  assert (Htr : truthy metadata_section = true) by (rewrite Ems; reflexivity).
  rewrite <- Ems. clear Ems. rewrite Htr.
  assert (Hseo : exists seo,
             match search no_flags seo_re metadata_section with
             | Some seo_match => group1_strip metadata_section seo_match
             | None => Ok []
             end = Ok seo).
  { destruct (search no_flags seo_re metadata_section) as [mt|] eqn:S; [|eauto].
    group_of S g Hg.
    rewrite (group1_strip_ok _ _ _ Hg). eauto. }
  assert (Hcat : exists cat,
             match search no_flags category_re metadata_section with
             | Some category_match => group1_strip metadata_section category_match
             | None => Ok (lit "Geopolitics")
             end = Ok cat).
  { destruct (search no_flags category_re metadata_section) as [mt|] eqn:S;
      [|eauto].
    group_of S g Hg.
    rewrite (group1_strip_ok _ _ _ Hg). eauto. }
  assert (Hig : exists ig,
             match search dotall instagram_re metadata_section with
             | Some instagram_match => group1_strip metadata_section instagram_match
             | None => Ok (firstn 300 summary)
             end = Ok ig).
  { destruct (search dotall instagram_re metadata_section) as [mt|] eqn:S;
      [|eauto].
    group_of S g Hg.
    rewrite (group1_strip_ok _ _ _ Hg). eauto. }
  assert (Hkw :
             match search no_flags keywords_re metadata_section with
             | Some keywords_match =>
                 keywords_str <- group1_str metadata_section keywords_match ;;
                 Ok (map strip (split (lit ",") None keywords_str))
             | None => Ok []
             end
             = Ok match search no_flags keywords_re metadata_section with
                  | Some mt =>
                      match group1 metadata_section mt with
                      | Some g => map strip (split (lit ",") None g)
                      | None => []
                      end
                  | None => []
                  end).
  { destruct (search no_flags keywords_re metadata_section) as [mt|] eqn:S;
      [|reflexivity].
    group_of S g Hg.
    unfold group1_str. rewrite Hg. reflexivity. }
  destruct Hseo as [seo ->], Hcat as [cat ->], Hig as [ig ->]. rewrite Hkw.
  cbn [rbind].
  destruct (search dotall entities_re metadata_section) as [mt|].
  - destruct (group1 metadata_section mt) as [g|].
    + destruct (json_loads g) as [v|]; cbn [rbind]; rewrite metadata_dict;
        do 4 eexists; (split; [reflexivity|]); [discriminate | reflexivity].
    + cbn [rbind]. rewrite metadata_dict. do 4 eexists.
      split; [reflexivity | reflexivity].
  - cbn [rbind]. rewrite metadata_dict. do 4 eexists.
    split; [reflexivity | reflexivity].
Qed.

(** The shape of what the parser returns, shared by the two claims about
    it. *)
Lemma parse_gemini_response_shape json_loads response_text :
  exists article_content metadata_section title content summary seo ents ig,
    split_response response_text = Ok (article_content, metadata_section)
    /\ parse_gemini_response json_loads response_text
       = Ok [ (lit "title", VStr title);
              (lit "content", VStr content);
              (lit "summary", VStr summary);
              (lit "seo_description", VStr seo);
              (lit "keywords",
               VList (map VStr (keywords_field metadata_section)));
              (lit "entities", ents);
              (lit "instagram_summary", VStr ig);
              (lit "word_count",
               VInt (Z.of_nat (List.length (split_ws content)))) ]
    /\ (entities_missing_or_malformed json_loads metadata_section ->
        ents = VDict []).
Proof.
  destruct (split_response_ok response_text) as [ac [ms Hs]].
  destruct (extract_title_ok ac) as [title [content Ht]].
  destruct (extract_summary_ok content) as [summary Hsum].
  destruct (parse_metadata_ok json_loads ms summary)
    as [seo [ents [cat [ig [Hm He]]]]].
  exists ac, ms, title, content, summary, seo, ents, ig.
  split; [exact Hs|]. split; [|exact He].
  unfold parse_gemini_response. rewrite Hs. cbn [rbind].
  rewrite Ht. cbn [rbind]. rewrite Hsum. cbn [rbind]. rewrite Hm. cbn [rbind].
  destruct (metadata_fields (VStr seo)
              (VList (map VStr (keywords_field ms))) ents (VStr cat) (VStr ig))
    as [G1 [G2 [G3 G4]]].
  cbv zeta in G1, G2, G3, G4. rewrite G1. cbn [rbind]. rewrite G2. cbn [rbind].
  rewrite G3. cbn [rbind]. rewrite G4. reflexivity.
Qed.

(** C10.  The parser never raises: for every response text it returns a
    dictionary with exactly the eight fields [title], [content], [summary],
    [seo_description], [keywords], [entities], [instagram_summary] and
    [word_count], the first three and the descriptions strings, the
    keywords a list of strings, the word count a number; and when the
    metadata block has no [ENTITIES] value, or one that the JSON decoder
    rejects, [entities] is the empty map. *)
Theorem parse_gemini_response_total
        (json_loads : str -> option pyval) (response_text : str) :
  exists title content summary seo keywords ents ig word_count,
    parse_gemini_response json_loads response_text
    = Ok [ (lit "title", VStr title);
           (lit "content", VStr content);
           (lit "summary", VStr summary);
           (lit "seo_description", VStr seo);
           (lit "keywords", VList (map VStr keywords));
           (lit "entities", ents);
           (lit "instagram_summary", VStr ig);
           (lit "word_count", VInt word_count) ]
    /\ match split_response response_text with
       | Ok (_, metadata_section) =>
           entities_missing_or_malformed json_loads metadata_section ->
           ents = VDict []
       | Raise _ => False
       end.
Proof.
  destruct (parse_gemini_response_shape json_loads response_text)
    as [ac [ms [title [content [summary [seo [ents [ig [Hs [Hp He]]]]]]]]]].
  exists title, content, summary, seo, (keywords_field ms), ents, ig,
    (Z.of_nat (List.length (split_ws content))).
  split; [exact Hp|]. rewrite Hs. exact He.
Qed.

(** The empty response parses to empty fields. *)
Example parse_empty_response :
  parse_gemini_response (fun _ => None) []
  = Ok [ (lit "title", VStr []); (lit "content", VStr []);
         (lit "summary", VStr []); (lit "seo_description", VStr []);
         (lit "keywords", VList []); (lit "entities", VDict []);
         (lit "instagram_summary", VStr []); (lit "word_count", VInt 0) ].
Proof. reflexivity. Qed.

End ParserFacts.

(** ** The keywords line *)

Section KeywordsFacts.
Import Re Analysis.

Lemma skipn_length_app {A} (l r : list A) : skipn (List.length l) (l ++ r) = r.
Proof. induction l; simpl; auto. Qed.

Lemma firstn_length_app {A} (l r : list A) : firstn (List.length l) (l ++ r) = l.
Proof.
  rewrite firstn_app, Nat.sub_diag, firstn_all, firstn_O. apply app_nil_r.
Qed.

(** Literal text, with no flag set. *)
Lemma eat_miss s : forall cu,
  startswith s (rest cu) = false -> eat no_flags s cu = None.
Proof.
  induction s as [|x s IH]; intros [p pv r]; simpl; [discriminate|].
  destruct r as [|c r]; [reflexivity|].
  rewrite (Ascii.eqb_sym c x).
  destruct (Ascii.eqb x c); simpl; [|reflexivity].
  intros H. apply IH. exact H.
Qed.

Lemma eat_hit s : forall p pv r,
  exists pv',
    eat no_flags s (Cursor p pv (s ++ r)) = Some (Cursor (p + List.length s) pv' r).
Proof.
  induction s as [|x s IH]; intros p pv r; simpl.
  - exists pv. rewrite Nat.add_0_r. reflexivity.
  - rewrite Ascii.eqb_refl. unfold advance. simpl.
    destruct (IH (S p) (Some x) r) as [pv' H]. exists pv'.
    rewrite H. f_equal. f_equal. lia.
Qed.

(** A greedy star runs to the end of a run of matching characters when
    what follows succeeds there. *)
Lemma star_greedy_run fl c run : forall n p pv y r k o,
  forallb (cls_match fl c) run = true ->
  cls_match fl c y = false ->
  (forall pv', k (Cursor (p + List.length run) pv' (y :: r)) = Some o) ->
  rep fl c 0 None true n p pv (run ++ y :: r) k = Some o.
Proof.
  induction run as [|x run IH]; intros n p pv y r k o Hrun Hy Hk; simpl.
  - rewrite Hy. simpl. rewrite <- (Nat.add_0_r p). apply Hk.
  - simpl in Hrun. apply andb_true_iff in Hrun. destruct Hrun as [Hx Hrun].
    rewrite Hx. simpl.
    rewrite (IH (S n) (S p) (Some x) y r k o Hrun Hy); [reflexivity|].
    intros pv'. specialize (Hk pv'). simpl List.length in Hk.
    replace (S p + List.length run) with (p + S (List.length run)) by lia.
    exact Hk.
Qed.

(** A lazy [.+?] stops at the first place where what follows succeeds. *)
Lemma plus_lazy_run body : forall n p pv stop r k o,
  forallb (fun c => negb (Ascii.eqb c NL) && negb (Ascii.eqb c stop)) body = true ->
  (n = 0 -> body <> []) ->
  (forall p' pv' c r', Ascii.eqb c stop = false ->
                       k (Cursor p' pv' (c :: r')) = None) ->
  (forall pv', k (Cursor (p + List.length body) pv' (stop :: r)) = Some o) ->
  rep no_flags Any 1 None false n p pv (body ++ stop :: r) k = Some o.
Proof.
  induction body as [|c body IH]; intros n p pv stop r k o Hb Hn Hmiss Hk.
  - simpl. destruct n; [exfalso; apply Hn; reflexivity|]. simpl.
    rewrite <- (Nat.add_0_r p). rewrite Hk. reflexivity.
  - simpl in Hb. apply andb_true_iff in Hb. destruct Hb as [Hc Hb].
    apply andb_true_iff in Hc. destruct Hc as [Hnl Hst].
    apply negb_true_iff in Hst.
    assert (Hmore :
              rep no_flags Any 1 None false (S n) (S p) (Some c)
                  (body ++ stop :: r) k = Some o).
    { apply IH; [exact Hb | discriminate | exact Hmiss |].
      intros pv'. specialize (Hk pv'). simpl List.length in Hk.
      replace (S p + List.length body) with (p + S (List.length body)) by lia.
      exact Hk. }
    simpl. rewrite Hnl. simpl.
    destruct n; simpl; [exact Hmore|].
    rewrite (Hmiss p pv c (body ++ stop :: r) Hst). exact Hmore.
Qed.

(** The keywords pattern at the start of a keywords line. *)
Lemma keywords_match_here p pv run body post :
  forallb isspace run = true ->
  forallb (fun c => negb (Ascii.eqb c NL) && negb (Ascii.eqb c "]")) body = true ->
  body <> [] ->
  match_at no_flags keywords_re
    (Cursor p pv (lit "KEYWORDS:" ++ run ++ "["%char :: body ++ "]"%char :: post))
  = Some (MkMatch p (p + 9 + List.length run + 1 + List.length body + 1)
                  (Some (p + 9 + List.length run + 1,
                         p + 9 + List.length run + 1 + List.length body))).
Proof.
  intros Hrun Hbody Hne. unfold match_at, keywords_re, star, plus_lazy, chr.
  cbn [m].
  destruct (eat_hit (lit "KEYWORDS:") p pv
              (run ++ "["%char :: body ++ "]"%char :: post)) as [pv1 He].
  rewrite He. cbn [pos prev rest].
  change (List.length (lit "KEYWORDS:")) with 9.
  rewrite (star_greedy_run no_flags ws run 0 (p + 9) pv1 "["%char
             (body ++ "]"%char :: post) _
             (p + 9 + List.length run + 1 + List.length body + 1,
              Some (p + 9 + List.length run + 1,
                    p + 9 + List.length run + 1 + List.length body)));
    [reflexivity | exact Hrun | reflexivity |].
  intros pv2. cbn [m rest]. simpl cls_match. cbv iota. unfold advance.
  cbn [pos prev rest].
  apply plus_lazy_run.
  - exact Hbody.
  - intros _. exact Hne.
  - intros p' pv' c r' Hc. cbn [rest]. simpl cls_match. rewrite Hc. reflexivity.
  - intros pv'. cbn [rest pos]. simpl cls_match. cbv iota. unfold advance.
    cbn [pos]. rewrite Ascii.eqb_refl. repeat f_equal; lia.
Qed.

(** Nothing matches where the literal [KEYWORDS:] does not start. *)
Lemma keywords_match_miss p pv s :
  startswith (lit "KEYWORDS:") s = false ->
  match_at no_flags keywords_re (Cursor p pv s) = None.
Proof.
  intros H. unfold match_at, keywords_re. cbn [m].
  rewrite eat_miss by exact H. reflexivity.
Qed.

Lemma search_at_skip pre : forall p pv s,
  (forall j, j < List.length pre ->
             startswith (lit "KEYWORDS:") (skipn j (pre ++ s)) = false) ->
  exists pv',
    search_at no_flags keywords_re p pv (pre ++ s)
    = search_at no_flags keywords_re (p + List.length pre) pv' s.
Proof.
  induction pre as [|c pre IH]; intros p pv s H; simpl.
  - exists pv. rewrite Nat.add_0_r. reflexivity.
  - rewrite keywords_match_miss by (apply (H 0); simpl; lia).
    destruct (IH (S p) (Some c) s) as [pv' Hpv'].
    { intros j Hj. apply (H (S j)). simpl. lia. }
    exists pv'. rewrite Hpv'. f_equal. lia.
Qed.

Lemma search_at_here p pv s mt :
  match_at no_flags keywords_re (Cursor p pv s) = Some mt ->
  search_at no_flags keywords_re p pv s = Some mt.
Proof. intros H. destruct s; cbn [search_at]; rewrite H; reflexivity. Qed.

(** Splitting on one character undoes joining with it. *)
Lemma split_go_piece c e : forall cur rest,
  forallb (fun x => negb (Ascii.eqb x c)) e = true ->
  split_go [c] None 0 cur (e ++ c :: rest)
  = (rev cur ++ e) :: split_go [c] None 0 [] rest.
Proof.
  induction e as [|x e IH]; intros cur rest He; simpl.
  - rewrite Ascii.eqb_refl. simpl. rewrite app_nil_r. reflexivity.
  - simpl in He. apply andb_true_iff in He. destruct He as [Hx He].
    apply negb_true_iff in Hx. rewrite (Ascii.eqb_sym c x), Hx. simpl.
    rewrite IH by exact He. simpl. rewrite <- app_assoc. reflexivity.
Qed.

Lemma split_go_whole c e : forall cur,
  forallb (fun x => negb (Ascii.eqb x c)) e = true ->
  split_go [c] None 0 cur e = [rev cur ++ e].
Proof.
  induction e as [|x e IH]; intros cur He; simpl.
  - rewrite app_nil_r. reflexivity.
  - simpl in He. apply andb_true_iff in He. destruct He as [Hx He].
    apply negb_true_iff in Hx. rewrite (Ascii.eqb_sym c x), Hx. simpl.
    rewrite IH by exact He. simpl. rewrite <- app_assoc. reflexivity.
Qed.

Lemma split_join c entries :
  entries <> [] ->
  Forall (fun e => forallb (fun x => negb (Ascii.eqb x c)) e = true) entries ->
  split [c] None (join [c] entries) = entries.
Proof.
  unfold split. induction entries as [|e entries IH]; [congruence|].
  intros _ H. inversion H as [|? ? He Hes]; subst.
  destruct entries as [|e' entries].
  - simpl. apply split_go_whole, He.
  - change (join [c] (e :: e' :: entries))
      with (e ++ [c] ++ join [c] (e' :: entries)).
    simpl app. rewrite split_go_piece by exact He.
    simpl. f_equal. apply IH; [discriminate | exact Hes].
Qed.

End KeywordsFacts.

Section KeywordsClaim.
Import Re Analysis.

(** An entry of a keywords list: no comma, no closing bracket, no line
    break. *)
Definition plain_entry (e : str) : bool :=
  forallb (fun c => negb (Ascii.eqb c ",") && negb (Ascii.eqb c "]")
                    && negb (Ascii.eqb c NL)) e.

Lemma forallb_join (P : ascii -> bool) sep entries :
  forallb P sep = true ->
  Forall (fun e => forallb P e = true) entries ->
  forallb P (join sep entries) = true.
Proof.
  intros Hsep. induction 1 as [|e entries He Hes IH]; [reflexivity|].
  destruct entries as [|e' entries]; [exact He|].
  change (join sep (e :: e' :: entries))
    with (e ++ sep ++ join sep (e' :: entries)).
  rewrite !forallb_app, He, Hsep, IH. reflexivity.
Qed.

Lemma plain_entries_body entries :
  Forall (fun e => plain_entry e = true) entries ->
  forallb (fun c => negb (Ascii.eqb c NL) && negb (Ascii.eqb c "]"))
          (join (lit ",") entries) = true
  /\ Forall (fun e => forallb (fun x => negb (Ascii.eqb x ",")) e = true) entries.
Proof.
  intros H. split.
  - apply forallb_join; [reflexivity|].
    eapply Forall_impl; [|exact H]. intros e He. unfold plain_entry in He.
    rewrite forallb_forall in *. intros c Hc. specialize (He c Hc).
    apply andb_true_iff in He. destruct He as [He H3].
    apply andb_true_iff in He. destruct He as [H1 H2].
    rewrite H2, H3. reflexivity.
  - eapply Forall_impl; [|exact H]. intros e He. unfold plain_entry in He.
    rewrite forallb_forall in *. intros c Hc. specialize (He c Hc).
    apply andb_true_iff in He. destruct He as [He H3].
    apply andb_true_iff in He. destruct He as [H1 H2]. exact H1.
Qed.

(** What the parser reads off a block whose first [KEYWORDS:] starts a
    well-formed keywords line. *)
Lemma keywords_field_line pre run entries post :
  let body := join (lit ",") entries in
  let block :=
    pre ++ lit "KEYWORDS:" ++ run ++ lit "[" ++ body ++ lit "]" ++ post in
  find (lit "KEYWORDS:") block = Some (List.length pre) ->
  forallb isspace run = true ->
  body <> [] ->
  Forall (fun e => plain_entry e = true) entries ->
  keywords_field block = map strip entries.
Proof.
  intros body block F Hrun Hne Hent.
  destruct (plain_entries_body entries Hent) as [Hbody Hcomma].
  fold body in Hbody.
  destruct (find_Some _ _ _ F) as [_ Hmiss].
  unfold keywords_field, search.
  destruct (search_at_skip pre 0 None
              (lit "KEYWORDS:" ++ run ++ lit "[" ++ body ++ lit "]" ++ post)
              Hmiss) as [pv' Hskip].
  fold block in Hskip. rewrite Hskip.
  change (lit "[" ++ body ++ lit "]" ++ post)
    with ("["%char :: body ++ "]"%char :: post).
  rewrite (search_at_here _ _ _ _
             (keywords_match_here (0 + List.length pre) pv' run body post
                Hrun Hbody Hne)).
  unfold group1, m_group, slice.
  set (a := 0 + List.length pre + 9 + List.length run + 1).
  assert (Hblock : block
                   = (pre ++ lit "KEYWORDS:" ++ run ++ lit "[")
                       ++ body ++ lit "]" ++ post).
  { unfold block. rewrite <- !app_assoc. reflexivity. }
  assert (Ha : a = List.length (pre ++ lit "KEYWORDS:" ++ run ++ lit "[")).
  { unfold a. rewrite !length_app.
    change (List.length (lit "KEYWORDS:")) with 9.
    change (List.length (lit "[")) with 1. lia. }
  replace (a + List.length body - a) with (List.length body) by lia.
  rewrite Hblock, Ha, skipn_length_app, firstn_length_app.
  unfold body. change (lit ",") with [","%char].
  rewrite split_join; [reflexivity | | exact Hcomma].
  intros ->. apply Hne. reflexivity.
Qed.

Lemma split_response_marked art block tail :
  find METADATA_MARK (art ++ METADATA_MARK ++ block ++ END_METADATA_MARK ++ tail)
  = Some (List.length art) ->
  find END_METADATA_MARK (block ++ END_METADATA_MARK ++ tail)
  = Some (List.length block) ->
  split_response (art ++ METADATA_MARK ++ block ++ END_METADATA_MARK ++ tail)
  = Ok (art, block).
Proof.
  intros F1 F2. unfold split_response, contains. rewrite F1. unfold split.
  assert (N1 : METADATA_MARK <> []) by discriminate.
  assert (N2 : END_METADATA_MARK <> []) by discriminate.
  rewrite (split_once _ _ _ [] N1 F1).
  rewrite firstn_length_app.
  replace (skipn (List.length art + List.length METADATA_MARK)
                 (art ++ METADATA_MARK ++ block ++ END_METADATA_MARK ++ tail))
    with (block ++ END_METADATA_MARK ++ tail).
  2:{ rewrite (app_assoc art), <- length_app, skipn_length_app. reflexivity. }
  destruct (split_go_first _ _ _ [] N2 F2) as [t Ht].
  unfold unpack2, rbind. rewrite Ht. unfold index. simpl nth_error.
  rewrite firstn_length_app. reflexivity.
Qed.

(** C9.  Take a response in which the metadata block, the text between
    the first [---METADATA---] and the [---END_METADATA---] that follows
    it, has as its first [KEYWORDS:] the start of a keywords line:
    [KEYWORDS:], white space, and in brackets a non-empty comma-separated
    list of entries free of commas, closing brackets and line breaks.  Then
    the parser returns, and its [keywords] are those entries, in order,
    each stripped of surrounding white space. *)
Theorem keywords_round_trip
        (json_loads : str -> option pyval)
        (art pre run post tail : str) (entries : list str) :
  let body := join (lit ",") entries in
  let block :=
    pre ++ lit "KEYWORDS:" ++ run ++ lit "[" ++ body ++ lit "]" ++ post in
  let response_text :=
    art ++ METADATA_MARK ++ block ++ END_METADATA_MARK ++ tail in
  find METADATA_MARK response_text = Some (List.length art) ->
  find END_METADATA_MARK (block ++ END_METADATA_MARK ++ tail)
  = Some (List.length block) ->
  find (lit "KEYWORDS:") block = Some (List.length pre) ->
  forallb isspace run = true ->
  body <> [] ->
  Forall (fun e => plain_entry e = true) entries ->
  exists d,
    parse_gemini_response json_loads response_text = Ok d
    /\ dict_get d (lit "keywords") = Ok (VList (map VStr (map strip entries))).
Proof.
  intros body block response_text F1 F2 F3 Hrun Hne Hent.
  destruct (parse_gemini_response_shape json_loads response_text)
    as [ac [ms [title [content [summary [seo [ents [ig [Hs [Hp _]]]]]]]]]].
  pose proof (keywords_field_line pre run entries post F3 Hrun Hne Hent) as Hk.
  fold body in Hk. fold block in Hk.
  assert (Hms : ms = block).
  { unfold response_text in Hs.
    rewrite (split_response_marked art block tail F1 F2) in Hs. congruence. }
  rewrite Hms, Hk in Hp.
  eexists. split; [exact Hp | reflexivity].
Qed.

End KeywordsClaim.

(** C9 on a response with the line [KEYWORDS: [a, b, c]]. *)
Lemma keywords_round_trip_witness :
  exists d,
    Analysis.parse_gemini_response (fun _ => None)
      ((lit "# Baltic Posture Review" ++ [NL])
       ++ Analysis.METADATA_MARK
       ++ (([NL] ++ lit "SEO_DESCRIPTION: Posture review" ++ [NL])
           ++ lit "KEYWORDS:" ++ lit " " ++ lit "["
           ++ join (lit ",") [lit "a"; lit " b"; lit " c"]
           ++ lit "]" ++ [NL])
       ++ Analysis.END_METADATA_MARK ++ [NL])
    = Ok d
    /\ dict_get d (lit "keywords")
       = Ok (VList [VStr (lit "a"); VStr (lit "b"); VStr (lit "c")]).
Proof.
  apply (keywords_round_trip (fun _ => None)
           (lit "# Baltic Posture Review" ++ [NL])
           ([NL] ++ lit "SEO_DESCRIPTION: Posture review" ++ [NL])
           (lit " ") [NL] [NL] [lit "a"; lit " b"; lit " c"]).
  - reflexivity.
  - reflexivity.
  - reflexivity.
  - reflexivity.
  - discriminate.
  - repeat constructor.
Defined.

(* ================================================================== *)
(** * Further properties of the code *)

(** ** Titles and same-batch deduplication *)

Section TitleFacts.
Import Re Ingestion.

(** The characters [normalize_title] keeps. *)
Definition word_or_space (c : ascii) : bool :=
  isalnum c || Ascii.eqb c "_" || isspace c.

(** Substituting the empty string for every character of a class is
    filtering those characters out. *)
Lemma sub_class_filter c s : forall p pv,
  sub_go no_flags (Class c) [] p pv 0 s
  = filter (fun x => negb (cls_match no_flags c x)) s.
Proof.
  induction s as [|x s IH]; intros p pv.
  - reflexivity.
  - cbn [sub_go filter]. unfold match_at. cbn [m rest].
    destruct (cls_match no_flags c x) eqn:E; cbn [negb].
    + unfold advance. cbn [pos m_end].
      replace (S p =? p) with false by (symmetry; apply Nat.eqb_neq; lia).
      replace (S p - p - 1) with 0 by lia. cbn [app]. apply IH.
    + f_equal. apply IH.
Qed.

Lemma lower_char_idempotent c : lower_char (lower_char c) = lower_char c.
Proof.
  destruct c as [[|] [|] [|] [|] [|] [|] [|] [|]]; reflexivity.
Qed.

Lemma normalize_title_filter t :
  normalize_title t = filter word_or_space (lower t).
Proof.
  unfold normalize_title, sub. rewrite sub_class_filter.
  apply filter_ext. intros c. unfold word_or_space. cbn [cls_match].
  rewrite negb_involutive. cbn [existsb atom_match].
  rewrite orb_false_r. reflexivity.
Qed.

Lemma map_lower_filter (keep : ascii -> bool) (t : str) :
  map lower_char (filter keep (map lower_char t)) = filter keep (map lower_char t).
Proof.
  induction t as [|c t IH]; cbn [map filter]; [reflexivity|].
  destruct (keep (lower_char c)); cbn [map]; [|exact IH].
  rewrite lower_char_idempotent, IH. reflexivity.
Qed.

Lemma filter_twice {A} (keep : A -> bool) (l : list A) :
  filter keep (filter keep l) = filter keep l.
Proof.
  induction l as [|x l IH]; cbn [filter]; [reflexivity|].
  destruct (keep x) eqn:E; cbn [filter]; [rewrite E, IH|]; auto.
Qed.

(** X1.  The normalized title is the lower-cased title with every
    character that is neither a word character nor white space removed, the
    rest in order; so normalizing is idempotent, and blind to case. *)
Theorem normalize_title_spec (t : str) :
  normalize_title t = filter word_or_space (lower t)
  /\ normalize_title (normalize_title t) = normalize_title t
  /\ normalize_title (lower t) = normalize_title t.
Proof.
  split; [apply normalize_title_filter|]. split.
  - rewrite !normalize_title_filter. unfold lower.
    rewrite map_lower_filter. apply filter_twice.
  - rewrite !normalize_title_filter. unfold lower. f_equal.
    rewrite map_map. apply map_ext. intros c. apply lower_char_idempotent.
Qed.

(** Items whose titles are new and pairwise distinct all pass. *)
Lemma first_titles_fixed l : forall seen_titles,
  NoDup (map norm l) ->
  (forall a, In a l -> ~ In (norm a) seen_titles) ->
  first_titles seen_titles l = l.
Proof.
  induction l as [|a l IH]; intros seen_titles Hnd Hnew; [reflexivity|].
  cbn [first_titles]. cbn [map] in Hnd. apply NoDup_cons_iff in Hnd.
  destruct Hnd as [Ha Hnd].
  destruct (seen seen_titles (norm a)) eqn:E.
  - apply seen_spec in E. exfalso. exact (Hnew a (or_introl eq_refl) E).
  - cbn [negb]. f_equal. apply IH; [exact Hnd|].
    intros b Hb [Heq | Hin].
    + apply Ha. rewrite Heq. apply in_map, Hb.
    + exact (Hnew b (or_intror Hb) Hin).
Qed.

Lemma first_titles_new seen_titles l a :
  In a (first_titles seen_titles l) -> ~ In (norm a) seen_titles.
Proof. intros H. apply first_titles_In in H. tauto. Qed.

Lemma first_titles_covers l : forall seen_titles a,
  In a l ->
  In (norm a) seen_titles
  \/ exists b, In b (first_titles seen_titles l) /\ norm b = norm a.
Proof.
  induction l as [|x l IH]; intros seen_titles a; [intros []|].
  cbn [first_titles]. intros [<- | Hin].
  - destruct (seen seen_titles (norm x)) eqn:E.
    + left. apply seen_spec, E.
    + right. exists x. split; [left; reflexivity | reflexivity].
  - destruct (seen seen_titles (norm x)) eqn:E; cbn [negb].
    + apply IH, Hin.
    + destruct (IH (norm x :: seen_titles) a Hin) as [[Heq | Hs] | [b [Hb Hn]]].
      * right. exists x. split; [left; reflexivity | exact Heq].
      * left. exact Hs.
      * right. exists b. split; [right; exact Hb | exact Hn].
Qed.

Lemma first_titles_length l : forall seen_titles,
  List.length (first_titles seen_titles l) <= List.length l.
Proof.
  induction l as [|x l IH]; intros seen_titles; cbn [first_titles]; [lia|].
  destruct (seen seen_titles (norm x)); cbn [negb List.length];
    [specialize (IH seen_titles) | specialize (IH (norm x :: seen_titles))];
    lia.
Qed.

(** X2.  Deduplicating twice is deduplicating once; no normalized title of
    the batch is lost; and nothing is added. *)
Theorem deduplicate_idempotent (articles : list NewsArticle) :
  deduplicate (deduplicate articles) = deduplicate articles
  /\ (forall a, In a articles ->
        exists b, In b (deduplicate articles)
                  /\ normalize_title (title b) = normalize_title (title a))
  /\ List.length (deduplicate articles) <= List.length articles.
Proof.
  unfold deduplicate. rewrite !deduplicate_loop_spec. cbn [app].
  split; [|split].
  - apply first_titles_fixed; [apply first_titles_NoDup|]. intros a _ [].
  - intros a Hin. destruct (first_titles_covers articles [] a Hin) as [[] | H].
    exact H.
  - apply first_titles_length.
Qed.

End TitleFacts.

(** ** Scoring and filtering *)

Section FilterFacts.
Import Schemas Config Ingestion.

Lemma score_range keywords article :
  (0 <= calculate_relevance_score keywords article <= 1)%Q.
Proof.
  unfold calculate_relevance_score.
  destruct (keywords_get keywords (ArticleCategory.value (category article)))
    as [|k kws] eqn:E.
  - split; unfold Qle; simpl; lia.
  - rewrite count_matches_filter.
    assert (Hr : (0 <= inject_Z (Z.of_nat (List.length
                       (filter (fun kw => contains (lower kw) (search_text article))
                               (k :: kws))))
                      / inject_Z (Z.of_nat (List.length (k :: kws))) <= 1)%Q).
    { apply ratio_range; [apply filter_length_le | simpl; lia]. }
    split.
    + apply Q.min_glb; [apply Hr | unfold Qle; simpl; lia].
    + apply Q.le_min_r.
Qed.

Lemma filter_content_perm keywords settings items min_score :
  Permutation
    (filter_content keywords settings items min_score)
    (filter (passes match min_score with
                    | Some s => s
                    | None => min_relevance_score settings
                    end)
            (map (rescore keywords) items)).
Proof.
  unfold filter_content. rewrite filter_loop_spec. cbn [app].
  destruct min_score; apply sort_reverse_perm.
Qed.

Lemma passes_spec threshold a :
  passes threshold a = true
  <-> (threshold <= relevance_score a)%Q /\ 100 <= List.length (content a).
Proof.
  unfold passes. rewrite andb_true_iff, !negb_true_iff, Qlt_bool_false.
  rewrite Nat.ltb_ge. tauto.
Qed.

(** X3.  [filter_content] returns exactly the items of its input that
    reach the minimum score and have a body of at least 100 characters,
    each with its score filled in: it drops no item that qualifies and
    returns nothing that was not given to it. *)
Theorem filter_content_membership
        (keywords : list (str * list str)) (settings : Settings)
        (items : list NewsArticle) (min_score : option Q) (a : NewsArticle) :
  In a (filter_content keywords settings items min_score)
  <-> exists x,
        In x items
        /\ a = set_relevance_score x (calculate_relevance_score keywords x)
        /\ (match min_score with
            | Some s => s
            | None => min_relevance_score settings
            end <= relevance_score a)%Q
        /\ 100 <= List.length (content a).
Proof.
  pose proof (filter_content_perm keywords settings items min_score) as P.
  split.
  - intros H. apply (Permutation_in _ P) in H. apply filter_In in H.
    destruct H as [Hin Hp]. apply in_map_iff in Hin.
    destruct Hin as [x [<- Hx]]. apply passes_spec in Hp.
    exists x. repeat split; tauto.
  - intros [x [Hx [-> [H1 H2]]]].
    apply (Permutation_in _ (Permutation_sym P)). apply filter_In. split.
    + apply in_map_iff. exists x. split; [reflexivity | exact Hx].
    + apply passes_spec. split; assumption.
Qed.

(** Items of one score. *)
Definition scored (v : Q) (a : NewsArticle) : bool :=
  Qeq_bool (relevance_score a) v.

Lemma insert_reverse_stable (v : Q) (x : NewsArticle) (l : list NewsArticle) :
  filter (scored v) (insert_reverse relevance_score x l)
  = filter (scored v) (x :: l).
Proof.
  induction l as [|y l IH]; [reflexivity|].
  cbn [insert_reverse].
  destruct (Qlt_bool (relevance_score x) (relevance_score y)) eqn:E;
    [|reflexivity].
  apply Qlt_bool_true in E. cbn [filter] in *. rewrite IH.
  destruct (scored v x) eqn:Ex; [|reflexivity].
  destruct (scored v y) eqn:Ey; [|reflexivity].
  unfold scored in Ex, Ey. apply Qeq_bool_iff in Ex, Ey.
  exfalso. rewrite Ex, Ey in E. exact (Qlt_irrefl _ E).
Qed.

Lemma sort_reverse_stable (v : Q) (l : list NewsArticle) :
  filter (scored v) (sort_reverse relevance_score l) = filter (scored v) l.
Proof.
  induction l as [|x l IH]; [reflexivity|].
  cbn [sort_reverse fold_right].
  change (fold_right (insert_reverse relevance_score) [] l)
    with (sort_reverse relevance_score l).
  rewrite insert_reverse_stable. cbn [filter]. rewrite IH. reflexivity.
Qed.

(** X4.  The sort of [filter_content] is stable: the items of any one
    score come out in the order in which they came in. *)
Theorem filter_content_stable
        (keywords : list (str * list str)) (settings : Settings)
        (items : list NewsArticle) (min_score : option Q) (v : Q) :
  filter (scored v) (filter_content keywords settings items min_score)
  = filter (scored v)
      (filter (passes match min_score with
                      | Some s => s
                      | None => min_relevance_score settings
                      end)
              (map (rescore keywords) items)).
Proof.
  unfold filter_content. rewrite filter_loop_spec. cbn [app].
  rewrite sort_reverse_stable. destruct min_score; reflexivity.
Qed.

(** X5.  A minimum score above 1 lets nothing through. *)
Theorem filter_content_above_one
        (keywords : list (str * list str)) (settings : Settings)
        (items : list NewsArticle) (min_score : Q) :
  (1 < min_score)%Q ->
  filter_content keywords settings items (Some min_score) = [].
Proof.
  intros H.
  pose proof (filter_content_perm keywords settings items (Some min_score)) as P.
  cbv iota in P.
  assert (E : filter (passes min_score) (map (rescore keywords) items) = []).
  { clear P. induction items as [|x items IH]; [reflexivity|].
    cbn [map filter]. rewrite IH.
    assert (Hp : passes min_score (rescore keywords x) = false).
    { apply not_true_is_false. intros Hp. apply passes_spec in Hp.
      destruct Hp as [Hp _]. unfold rescore in Hp. simpl in Hp.
      destruct (score_range keywords x) as [_ Hle].
      apply (Qlt_irrefl 1). eapply Qlt_le_trans; [exact H|].
      eapply Qle_trans; eassumption. }
    rewrite Hp. reflexivity. }
  rewrite E in P. apply Permutation_sym, Permutation_nil in P. exact P.
Qed.

(** The item with more text in its body. *)
Definition with_more_content (a : NewsArticle) (more : str) : NewsArticle :=
  {| title := title a; content := content a ++ more; url := url a;
     source := source a; category := category a;
     published_date := published_date a;
     relevance_score := relevance_score a |}.

Lemma filter_length_mono {A} (p q : A -> bool) (l : list A) :
  (forall x, p x = true -> q x = true) ->
  List.length (filter p l) <= List.length (filter q l).
Proof.
  intros H. induction l as [|x l IH]; cbn [filter]; [lia|].
  destruct (p x) eqn:E.
  - rewrite (H x E). cbn [List.length]. lia.
  - destruct (q x); cbn [List.length]; lia.
Qed.

Lemma search_text_more a more :
  search_text (with_more_content a more) = search_text a ++ lower more.
Proof.
  unfold search_text, lower. cbn [title content with_more_content].
  rewrite !map_app, <- !app_assoc. reflexivity.
Qed.

(** X6.  Text added to the end of a body never lowers the score. *)
Theorem score_monotone
        (keywords : list (str * list str)) (a : NewsArticle) (more : str) :
  (calculate_relevance_score keywords a
   <= calculate_relevance_score keywords (with_more_content a more))%Q.
Proof.
  unfold calculate_relevance_score. cbn [category with_more_content].
  destruct (keywords_get keywords (ArticleCategory.value (category a)))
    as [|k kws]; [apply Qle_refl|].
  rewrite !count_matches_filter.
  apply Q.min_le_compat_r.
  assert (Hlen :
            List.length (filter (fun kw => contains (lower kw) (search_text a))
                                (k :: kws))
            <= List.length
                 (filter (fun kw => contains (lower kw)
                                      (search_text (with_more_content a more)))
                         (k :: kws))).
  { apply filter_length_mono. intros kw Hkw.
    apply contains_spec in Hkw. destruct Hkw as [pre [post Hs]].
    apply contains_spec. exists pre, (post ++ lower more).
    rewrite search_text_more, Hs, <- !app_assoc. reflexivity. }
  unfold Qdiv. apply Qmult_le_compat_r.
  - rewrite <- Zle_Qle. lia.
  - apply Qinv_le_0_compat. unfold Qle; simpl; lia.
Qed.

End FilterFacts.

(** X5 with a minimum score of 11/10. *)
Lemma filter_content_above_one_witness :
  Ingestion.filter_content Config.RELEVANCE_KEYWORDS Sample.settings
    [Sample.item] (Some (11 # 10)%Q) = [].
Proof.
  apply (filter_content_above_one Config.RELEVANCE_KEYWORDS Sample.settings
           [Sample.item] (11 # 10)%Q).
  reflexivity.
Defined.

(** ** Ingestion as a whole *)

Section FetchFacts.
Import Schemas Config Ingestion.

Lemma rescore_norm keywords x : norm (rescore keywords x) = norm x.
Proof. reflexivity. Qed.

(** The first item with a given normalized title is at one place only. *)
Lemma first_occurrence_unique (before : list NewsArticle) :
  forall x after before' x' after',
    before ++ x :: after = before' ++ x' :: after' ->
    Forall (fun y => norm y <> norm x) before ->
    Forall (fun y => norm y <> norm x') before' ->
    norm x = norm x' ->
    before = before' /\ x = x'.
Proof.
  induction before as [|b before IH];
    intros x after before' x' after' E Hb Hb' Hn.
  - destruct before' as [|b' before']; cbn [app] in E.
    + injection E as -> _. auto.
    + injection E as -> _. inversion Hb'; subst. congruence.
  - destruct before' as [|b' before']; cbn [app] in E.
    + injection E as -> _. inversion Hb; subst. congruence.
    + injection E as -> E. inversion Hb; subst. inversion Hb'; subst.
      destruct (IH x after before' x' after' E) as [-> ->]; auto.
Qed.

Lemma fetch_all_sources_sorted keywords settings rss news gov :
  exists kept,
    fetch_all_sources keywords settings rss news gov
    = sort_reverse relevance_score kept
    /\ kept = filter (passes (min_relevance_score settings))
                     (map (rescore keywords) (first_titles [] (rss ++ news ++ gov))).
Proof.
  eexists. split; [|reflexivity].
  unfold fetch_all_sources, filter_content, deduplicate.
  rewrite deduplicate_loop_spec, filter_loop_spec. reflexivity.
Qed.

(** Where an item that is handed on comes from. *)
Lemma fetch_all_sources_origin keywords settings rss news gov a :
  In a (fetch_all_sources keywords settings rss news gov) ->
  exists before x after,
    rss ++ news ++ gov = before ++ x :: after
    /\ Forall (fun y => norm y <> norm x) before
    /\ a = rescore keywords x
    /\ (min_relevance_score settings <= relevance_score a)%Q
    /\ 100 <= List.length (content a).
Proof.
  destruct (fetch_all_sources_sorted keywords settings rss news gov)
    as [kept [-> Hk]].
  intros Hin. apply (Permutation_in _ (sort_reverse_perm _ kept)) in Hin.
  rewrite Hk in Hin. apply filter_In in Hin. destruct Hin as [Hin Hp].
  apply in_map_iff in Hin. destruct Hin as [x [<- Hx]].
  apply first_titles_In in Hx. destruct Hx as [_ [before [after [E Hb]]]].
  exists before, x, after. split; [exact E|]. split; [exact Hb|].
  split; [reflexivity|]. apply passes_spec in Hp. exact Hp.
Qed.

(** X7.  What ingestion hands to the analysis stage, given what the
    three source adapters returned: no two items have the same normalized
    title; the items are in descending order of score; and every item is
    the first one with its normalized title among all that were fetched,
    RSS feeds first, then the news API, then the portals, scored anew, with
    a score at or above the configured minimum and a body of at least 100
    characters. *)
Theorem fetch_all_sources_spec
        (keywords : list (str * list str)) (settings : Settings)
        (rss news gov : list NewsArticle) :
  let result := fetch_all_sources keywords settings rss news gov in
  NoDup (map norm result)
  /\ StronglySorted (descending relevance_score) result
  /\ forall a, In a result ->
       exists before x after,
         rss ++ news ++ gov = before ++ x :: after
         /\ Forall (fun y => norm y <> norm x) before
         /\ a = rescore keywords x
         /\ (min_relevance_score settings <= relevance_score a)%Q
         /\ 100 <= List.length (content a).
Proof.
  cbv zeta. split; [|split].
  - destruct (fetch_all_sources_sorted keywords settings rss news gov)
      as [kept [-> Hk]].
    apply (Permutation_NoDup (l := map norm kept)).
    + apply Permutation_map. symmetry. apply sort_reverse_perm.
    + rewrite Hk. apply NoDup_map_filter. rewrite map_map.
      rewrite (map_ext _ norm) by (intros; apply rescore_norm).
      apply first_titles_NoDup.
  - destruct (fetch_all_sources_sorted keywords settings rss news gov)
      as [kept [-> _]].
    apply sort_reverse_sorted.
  - intros a. apply fetch_all_sources_origin.
Qed.

(** X8.  Duplicates are removed before the filter is applied: when the
    first item with some normalized title is too short, or scores below the
    minimum, no item with that title is handed on, whatever a later item
    with the same title would have scored. *)
Theorem first_occurrence_decides
        (keywords : list (str * list str)) (settings : Settings)
        (rss news gov before after : list NewsArticle) (x : NewsArticle) :
  rss ++ news ++ gov = before ++ x :: after ->
  Forall (fun y => norm y <> norm x) before ->
  passes (min_relevance_score settings) (rescore keywords x) = false ->
  forall a, In a (fetch_all_sources keywords settings rss news gov) ->
            norm a <> norm x.
Proof.
  intros E Hb Hfail a Hin Hn.
  destruct (fetch_all_sources_origin keywords settings rss news gov a Hin)
    as [before' [x' [after' [E' [Hb' [-> [Hs Hl]]]]]]].
  rewrite rescore_norm in Hn.
  rewrite E in E'.
  destruct (first_occurrence_unique before x after before' x' after'
              E' Hb Hb' (eq_sym Hn)) as [_ <-].
  assert (Hp : passes (min_relevance_score settings) (rescore keywords x) = true)
    by (apply passes_spec; auto).
  congruence.
Qed.

End FetchFacts.

(** An item of the news API with the title of the sample item, up to case
    and punctuation, and a long body. *)
Definition later_item : Ingestion.NewsArticle :=
  {| Ingestion.title := lit "NATO expands operations!";
     Ingestion.content :=
       lit "NATO joint military exercises begin next week, with air defense, naval and army units deployed across the eastern flank.";
     Ingestion.url := lit "https://example.org/b";
     Ingestion.source := lit "NewsAPI";
     Ingestion.category := Schemas.ArticleCategory.DEFENSE;
     Ingestion.published_date := 1700000000%Z;
     Ingestion.relevance_score := 0%Q |}.

(** X8 on two items with one title: the first, from a feed, has a short
    body; the second, from the news API, has a long one, and is not handed
    on either. *)
Lemma first_occurrence_decides_witness :
  norm later_item = norm Sample.item
  /\ 100 <= List.length (Ingestion.content later_item)
  /\ forall a,
       In a (Ingestion.fetch_all_sources Config.RELEVANCE_KEYWORDS
               Sample.settings [Sample.item] [later_item] []) ->
       norm a <> norm Sample.item.
Proof.
  split; [vm_compute; reflexivity|].
  split; [vm_compute; lia|].
  apply (first_occurrence_decides Config.RELEVANCE_KEYWORDS Sample.settings
           [Sample.item] [later_item] [] [] [later_item] Sample.item).
  - reflexivity.
  - constructor.
  - vm_compute. reflexivity.
Defined.

(** ** More on the response parser *)

Section StripFacts.

Lemma dropwhile_split (p : ascii -> bool) (s : str) :
  exists a, s = a ++ dropwhile p s /\ forallb p a = true.
Proof.
  induction s as [|c s IH]; cbn [dropwhile].
  - exists []. split; reflexivity.
  - destruct (p c) eqn:E.
    + destruct IH as [a [Hs Ha]]. exists (c :: a). cbn [app forallb].
      rewrite E, Ha, <- Hs. split; reflexivity.
    + exists []. split; reflexivity.
Qed.

(** A string that does not begin with a character of [p]. *)
Definition starts_clean (p : ascii -> bool) (s : str) : Prop :=
  match s with
  | [] => True
  | c :: _ => p c = false
  end.

Lemma dropwhile_clean p s : starts_clean p (dropwhile p s).
Proof.
  induction s as [|c s IH]; cbn [dropwhile]; [exact I|].
  destruct (p c) eqn:E; [exact IH | exact E].
Qed.

Lemma dropwhile_fixed p s : starts_clean p s -> dropwhile p s = s.
Proof. destruct s as [|c s]; cbn; [reflexivity | intros ->; reflexivity]. Qed.

Lemma rstrip_clean s : starts_clean isspace s -> starts_clean isspace (rstrip s).
Proof.
  intros H. unfold rstrip.
  destruct (dropwhile_split isspace (rev s)) as [a [Hs _]].
  assert (Hu : s = rev (dropwhile isspace (rev s)) ++ rev a).
  { rewrite <- rev_app_distr, <- Hs, rev_involutive. reflexivity. }
  destruct (rev (dropwhile isspace (rev s))) as [|c u]; [exact I|].
  rewrite Hu in H. exact H.
Qed.

Lemma rstrip_twice s : rstrip (rstrip s) = rstrip s.
Proof.
  unfold rstrip. rewrite rev_involutive.
  rewrite (dropwhile_fixed _ _ (dropwhile_clean isspace (rev s))). reflexivity.
Qed.

(** Stripping leaves nothing to strip. *)
Lemma strip_twice s : strip (strip s) = strip s.
Proof.
  unfold strip, lstrip.
  rewrite (dropwhile_fixed isspace (rstrip (dropwhile isspace s))).
  - apply rstrip_twice.
  - apply rstrip_clean, dropwhile_clean.
Qed.

End StripFacts.

Ltac take_group S g Hg :=
  match type of S with
  | Re.search ?fl ?r ?s = Some ?mt =>
      destruct (search_group1 fl r s mt eq_refl S) as [g Hg]
  end.

Section ParserBounds.
Import Re Analysis.
Local Open Scope result_scope.

Lemma extract_title_stripped article_content title body :
  extract_title article_content = Ok (title, body) ->
  strip title = title /\ strip body = body.
Proof.
  unfold extract_title.
  destruct (search multiline title_re article_content) as [mt|] eqn:S.
  - take_group S g Hg. rewrite (group1_strip_ok _ _ _ Hg). cbn [rbind].
    intros [= <- <-]. split; apply strip_twice.
  - unfold split.
    destruct (split_go_cons [NL] article_content None 0 []) as [h [t Ht]].
    rewrite Ht. cbn [index nth_error rbind].
    intros [= <- <-]. split; apply strip_twice.
Qed.

Lemma extract_summary_bound article_content summary :
  extract_summary article_content = Ok summary ->
  List.length summary <= 500.
Proof.
  unfold extract_summary.
  destruct (search dotall_ignorecase summary_re article_content) as [mt|] eqn:S.
  - take_group S g Hg. rewrite (group1_strip_ok _ _ _ Hg). cbn [rbind].
    intros [= <-]. apply firstn_le_length.
  - destruct (filter (fun p => truthy (strip p))
                     (split [NL; NL] None article_content)) as [|p0 ps].
    + intros [= <-]. cbn. lia.
    + cbn [index nth_error rbind]. intros [= <-]. apply firstn_le_length.
Qed.

(** X9.  Whatever the response, the parsed title and content neither begin
    nor end with white space, and the summary has at most 500
    characters. *)
Theorem parse_gemini_response_bounds
        (json_loads : str -> option pyval) (response_text : str) :
  exists title content summary rest,
    parse_gemini_response json_loads response_text
    = Ok ((lit "title", VStr title) :: (lit "content", VStr content)
          :: (lit "summary", VStr summary) :: rest)
    /\ strip title = title
    /\ strip content = content
    /\ List.length summary <= 500.
Proof.
  destruct (split_response_ok response_text) as [ac [ms Hs]].
  destruct (extract_title_ok ac) as [title [content Ht]].
  destruct (extract_summary_ok content) as [summary Hsum].
  destruct (parse_metadata_ok json_loads ms summary)
    as [seo [ents [cat [ig [Hm _]]]]].
  destruct (extract_title_stripped _ _ _ Ht) as [H1 H2].
  pose proof (extract_summary_bound _ _ Hsum) as H3.
  exists title, content, summary. eexists. split; [|auto].
  unfold parse_gemini_response. rewrite Hs. cbn [rbind].
  rewrite Ht. cbn [rbind]. rewrite Hsum. cbn [rbind]. rewrite Hm. cbn [rbind].
  destruct (metadata_fields (VStr seo)
              (VList (map VStr (keywords_field ms))) ents (VStr cat) (VStr ig))
    as [G1 [G2 [G3 G4]]].
  cbv zeta in G1, G2, G3, G4. rewrite G1. cbn [rbind]. rewrite G2. cbn [rbind].
  rewrite G3. cbn [rbind]. rewrite G4. reflexivity.
Qed.

(** X10.  A response without the metadata marker is all article: its
    keywords are the empty list, its entities the empty map, its SEO
    description the first 160 characters of the summary and its Instagram
    summary the first 300. *)
Theorem parse_without_metadata
        (json_loads : str -> option pyval) (response_text : str) :
  contains METADATA_MARK response_text = false ->
  exists title content summary,
    extract_title response_text = Ok (title, content)
    /\ extract_summary content = Ok summary
    /\ parse_gemini_response json_loads response_text
       = Ok [ (lit "title", VStr title);
              (lit "content", VStr content);
              (lit "summary", VStr summary);
              (lit "seo_description", VStr (firstn 160 summary));
              (lit "keywords", VList []);
              (lit "entities", VDict []);
              (lit "instagram_summary", VStr (firstn 300 summary));
              (lit "word_count",
               VInt (Z.of_nat (List.length (split_ws content)))) ].
Proof.
  intros Hno.
  destruct (extract_title_ok response_text) as [title [content Ht]].
  destruct (extract_summary_ok content) as [summary Hsum].
  exists title, content, summary. split; [exact Ht|]. split; [exact Hsum|].
  unfold parse_gemini_response, split_response. rewrite Hno. cbn [rbind].
  rewrite Ht. cbn [rbind]. rewrite Hsum. reflexivity.
Qed.

End ParserBounds.

(** X10 on a response of two lines. *)
Lemma parse_without_metadata_witness :
  exists title content summary,
    Analysis.extract_title (lit "Heading" ++ [NL] ++ lit "Body text.")
    = Ok (title, content)
    /\ Analysis.extract_summary content = Ok summary
    /\ Analysis.parse_gemini_response (fun _ => None)
         (lit "Heading" ++ [NL] ++ lit "Body text.")
       = Ok [ (lit "title", VStr title);
              (lit "content", VStr content);
              (lit "summary", VStr summary);
              (lit "seo_description", VStr (firstn 160 summary));
              (lit "keywords", VList []);
              (lit "entities", VDict []);
              (lit "instagram_summary", VStr (firstn 300 summary));
              (lit "word_count",
               VInt (Z.of_nat (List.length (split_ws content)))) ].
Proof.
  apply (parse_without_metadata (fun _ => None)
           (lit "Heading" ++ [NL] ++ lit "Body text.")).
  reflexivity.
Defined.

(** ** The heading line *)

Section HeadingFacts.
Import Re Analysis.
Local Open Scope result_scope.

(** A greedy repetition with no upper bound takes a whole run when what
    follows succeeds after it. *)
Lemma greedy_run fl c lo run : forall n p pv r k o,
  forallb (cls_match fl c) run = true ->
  starts_clean (cls_match fl c) r ->
  lo <= n + List.length run ->
  (forall pv', k (Cursor (p + List.length run) pv' r) = Some o) ->
  rep fl c lo None true n p pv (run ++ r) k = Some o.
Proof.
  induction run as [|x run IH]; intros n p pv r k o Hrun Hstop Hlo Hk.
  - cbn [app List.length] in *.
    assert (Hlo' : (lo <=? n) = true) by (apply Nat.leb_le; lia).
    specialize (Hk pv). rewrite Nat.add_0_r in Hk.
    destruct r as [|y r]; cbn [rep]; [rewrite Hlo'; exact Hk|].
    cbn in Hstop. rewrite Hstop. cbn [below andb]. rewrite Hlo'. exact Hk.
  - cbn [forallb] in Hrun. apply andb_true_iff in Hrun.
    destruct Hrun as [Hx Hrun]. cbn [app rep below]. rewrite Hx. cbn [andb].
    rewrite (IH (S n) (S p) (Some x) r k o Hrun Hstop); [reflexivity | |].
    + cbn [List.length] in Hlo. lia.
    + intros pv'. specialize (Hk pv'). cbn [List.length] in Hk.
      replace (S p + List.length run) with (p + S (List.length run)) by lia.
      exact Hk.
Qed.

(** The title pattern on a heading at the start of the text. *)
Lemma title_match_start run t body :
  run <> [] ->
  forallb isspace run = true ->
  t <> [] ->
  starts_clean isspace t ->
  forallb (fun c => negb (Ascii.eqb c NL)) t = true ->
  starts_clean (fun c => negb (Ascii.eqb c NL)) body ->
  search multiline title_re ("#"%char :: run ++ t ++ body)
  = Some (MkMatch 0 (1 + List.length run + List.length t)
                  (Some (1 + List.length run,
                         1 + List.length run + List.length t))).
Proof.
  intros Hrun0 Hrun Ht0 Htc Ht Hrest.
  assert (Hm : match_at multiline title_re
                 (Cursor 0 None ("#"%char :: run ++ t ++ body))
               = Some (MkMatch 0 (1 + List.length run + List.length t)
                         (Some (1 + List.length run,
                                1 + List.length run + List.length t)))).
  { unfold match_at, title_re, plus, chr. cbn [m at_bol prev rest].
    cbn [cls_match atom_match multiline IGNORECASE]. rewrite Ascii.eqb_refl.
    unfold advance. cbn [pos prev rest].
    rewrite (greedy_run multiline ws 1 run 0 1 (Some "#"%char) (t ++ body) _
               (1 + List.length run + List.length t,
                Some (1 + List.length run, 1 + List.length run + List.length t)));
      [reflexivity | exact Hrun | | | ].
    - destruct t as [|c t']; [congruence|]. cbn in Htc |- *. exact Htc.
    - destruct run; [congruence | cbn; lia].
    - intros pv1. cbn [pos prev rest].
      apply (greedy_run multiline Any 1 t 0 (1 + List.length run) pv1 body).
      + rewrite forallb_forall in *. intros c Hc. cbn. apply Ht, Hc.
      + destruct body as [|y body']; [exact I|].
        unfold starts_clean in Hrest |- *. cbn [cls_match multiline DOTALL].
        rewrite Hrest. reflexivity.
      + destruct t; [congruence | cbn; lia].
      + intros pv2. cbn [m rest pos].
        destruct body as [|y body']; [reflexivity|].
        unfold starts_clean in Hrest. apply negb_false_iff in Hrest.
        unfold at_eol. cbn [rest]. rewrite Hrest. reflexivity. }
  unfold search. cbn [search_at]. rewrite Hm. reflexivity.
Qed.

(** The heading line and what follows it, read back. *)
Lemma extract_title_heading run t body :
  run <> [] ->
  forallb isspace run = true ->
  t <> [] ->
  starts_clean isspace t ->
  forallb (fun c => negb (Ascii.eqb c NL)) t = true ->
  starts_clean (fun c => negb (Ascii.eqb c NL)) body ->
  extract_title ("#"%char :: run ++ t ++ body) = Ok (strip t, strip body).
Proof.
  intros Hrun0 Hrun Ht0 Htc Ht Hrest. unfold extract_title.
  rewrite (title_match_start run t body Hrun0 Hrun Ht0 Htc Ht Hrest).
  set (s := "#"%char :: run ++ t ++ body).
  assert (Hs1 : s = ("#"%char :: run) ++ t ++ body) by reflexivity.
  assert (Hs2 : s = ("#"%char :: run ++ t) ++ body).
  { unfold s. cbn [app]. rewrite <- app_assoc. reflexivity. }
  assert (G1 : slice s (1 + List.length run)
                     (1 + List.length run + List.length t) = t).
  { unfold slice.
    replace (1 + List.length run + List.length t - (1 + List.length run))
      with (List.length t) by lia.
    change (1 + List.length run) with (List.length ("#"%char :: run)).
    rewrite Hs1, skipn_length_app. apply firstn_length_app. }
  assert (G0 : slice s 0 (1 + List.length run + List.length t)
               = "#"%char :: run ++ t).
  { unfold slice. rewrite Nat.sub_0_r. cbn [skipn].
    replace (1 + List.length run + List.length t)
      with (List.length ("#"%char :: run ++ t))
      by (cbn [List.length]; rewrite length_app; lia).
    rewrite Hs2. apply firstn_length_app. }
  unfold group1_strip, group1, group0. cbn [m_group m_start m_end].
  rewrite G1, G0. cbn [rbind]. unfold replace_first.
  rewrite find_hit by (rewrite Hs2; apply startswith_app).
  rewrite firstn_O. cbn [app Nat.add]. rewrite Hs2 at 1.
  rewrite skipn_length_app. reflexivity.
Qed.

(** X11.  When the article part of a response, the text before the first
    metadata marker, opens with a heading line, a [#], white space and a
    title on one line, the parsed title is that title stripped, and the
    parsed content is the text after the heading line, stripped. *)
Theorem heading_round_trip
        (json_loads : str -> option pyval) (run t body tail : str) :
  let article := "#"%char :: run ++ t ++ body in
  let response_text := article ++ METADATA_MARK ++ tail in
  find METADATA_MARK response_text = Some (List.length article) ->
  run <> [] ->
  forallb isspace run = true ->
  t <> [] ->
  starts_clean isspace t ->
  forallb (fun c => negb (Ascii.eqb c NL)) t = true ->
  starts_clean (fun c => negb (Ascii.eqb c NL)) body ->
  exists d,
    parse_gemini_response json_loads response_text = Ok d
    /\ dict_get d (lit "title") = Ok (VStr (strip t))
    /\ dict_get d (lit "content") = Ok (VStr (strip body)).
Proof.
  intros article response_text F Hrun0 Hrun Ht0 Htc Ht Hrest.
  destruct (parse_gemini_response_shape json_loads response_text)
    as [ac [ms [title [content [summary [seo [ents [ig [Hs [Hp _]]]]]]]]]].
  assert (Hac : ac = article).
  { revert Hs. unfold split_response, contains. rewrite F. unfold split.
    assert (N : METADATA_MARK <> []) by discriminate.
    rewrite (split_once _ _ _ [] N F). unfold response_text.
    rewrite firstn_length_app.
    destruct (split_go_cons END_METADATA_MARK
                (skipn (List.length article + List.length METADATA_MARK)
                       (article ++ METADATA_MARK ++ tail)) None 0 [])
      as [h [tl Hsplit]].
    unfold unpack2, rbind. rewrite Hsplit. cbn [index nth_error app rev].
    congruence. }
  assert (Htitle : title = strip t /\ content = strip body).
  { revert Hp. unfold parse_gemini_response. rewrite Hs. cbn [rbind].
    rewrite Hac. unfold article.
    rewrite (extract_title_heading run t body Hrun0 Hrun Ht0 Htc Ht Hrest).
    cbn [rbind].
    destruct (extract_summary (strip body)) as [s1|e1]; cbn [rbind];
      [|discriminate].
    destruct (parse_metadata json_loads ms s1) as [m1|e2]; cbn [rbind];
      [|discriminate].
    destruct (dict_get m1 (lit "seo_description")); cbn [rbind]; [|discriminate].
    destruct (dict_get m1 (lit "keywords")); cbn [rbind]; [|discriminate].
    destruct (dict_get m1 (lit "entities")); cbn [rbind]; [|discriminate].
    destruct (dict_get m1 (lit "instagram_summary")); cbn [rbind];
      [|discriminate].
    intros H. injection H as H1 H2 _. auto. }
  destruct Htitle as [<- <-].
  eexists. split; [exact Hp|]. split; reflexivity.
Qed.

End HeadingFacts.

(** X11 on a response that opens with [# Baltic Posture Review]. *)
Lemma heading_round_trip_witness :
  exists d,
    Analysis.parse_gemini_response (fun _ => None)
      (("#"%char :: lit " " ++ lit "Baltic Posture Review "
                 ++ ([NL] ++ lit "Forces are unchanged." ++ [NL]))
       ++ Analysis.METADATA_MARK ++ [NL])
    = Ok d
    /\ dict_get d (lit "title") = Ok (VStr (lit "Baltic Posture Review"))
    /\ dict_get d (lit "content") = Ok (VStr (lit "Forces are unchanged.")).
Proof.
  apply (heading_round_trip (fun _ => None) (lit " ")
           (lit "Baltic Posture Review ")
           ([NL] ++ lit "Forces are unchanged." ++ [NL]) [NL]).
  - reflexivity.
  - discriminate.
  - reflexivity.
  - discriminate.
  - reflexivity.
  - reflexivity.
  - reflexivity.
Defined.

(** ** The persistence layer, continued *)

Section StoreFacts.
Import Schemas Runtime Database.
Local Open Scope Z_scope.
Variable ext : Externals.

(** X12.  [is_duplicate] answers yes exactly when some record of the
    dedup cache has the URL asked about, or the hash of the content asked
    about. *)
Theorem is_duplicate_iff (d : DB) (url body : str) :
  is_duplicate ext d url body = true
  <-> exists r, In r (source_cache d)
                /\ (sc_source_url r = url
                    \/ sc_content_hash r = sha256 ext body).
Proof.
  split.
  - unfold is_duplicate, create_content_hash.
    destruct (List.find (fun r => str_eqb (sc_source_url r) url)
                        (source_cache d)) as [r|] eqn:F1.
    + intros _. apply find_some in F1. destruct F1 as [Hin E].
      apply str_eqb_eq in E. exists r. auto.
    + destruct (List.find (fun r => str_eqb (sc_content_hash r)
                                            (sha256 ext body))
                          (source_cache d)) as [r|] eqn:F2;
        [|discriminate].
      intros _. apply find_some in F2. destruct F2 as [Hin E].
      apply str_eqb_eq in E. exists r. auto.
  - intros [r [Hin [H|H]]].
    + apply is_duplicate_by_url. exists r. auto.
    + apply is_duplicate_by_hash. exists r. auto.
Qed.

(** Ids handed out by a table's sequence: no two rows share one, and all
    lie below the next one. *)
Definition fresh_ids {X} (id : X -> Z) (rows : list X) (next : Z) : Prop :=
  NoDup (map id rows) /\ Forall (fun x => id x < next) rows.

Definition keyed (d : DB) : Prop :=
  fresh_ids a_id (articles d) (articles_seq d)
  /\ fresh_ids md_id (metadata d) (metadata_seq d)
  /\ fresh_ids q_id (publish_queue d) (publish_queue_seq d)
  /\ fresh_ids sc_id (source_cache d) (source_cache_seq d).

Lemma fresh_ids_add {X} (id : X -> Z) rows next x :
  fresh_ids id rows next -> id x = next ->
  fresh_ids id (rows ++ [x]) (next + 1).
Proof.
  intros [Hnd Hlt] Hx. split.
  - rewrite map_app. simpl. apply NoDup_app; [exact Hnd | | ].
    + constructor; [intros [] | constructor].
    + intros y Hy [Hin|[]]. apply in_map_iff in Hy.
      destruct Hy as [z [Hz Hinz]]. rewrite Forall_forall in Hlt.
      specialize (Hlt z Hinz). lia.
  - apply Forall_app. split.
    + eapply Forall_impl; [|exact Hlt]. simpl. intros; lia.
    + constructor; [lia | constructor].
Qed.

Lemma fresh_ids_same {X} (id : X -> Z) rows rows' next :
  fresh_ids id rows next ->
  map id rows' = map id rows ->
  fresh_ids id rows' next.
Proof.
  intros [Hnd Hlt] Hmap. split; [rewrite Hmap; exact Hnd|].
  rewrite Forall_forall in *. intros x Hin.
  assert (Hi : In (id x) (map id rows)) by (rewrite <- Hmap; apply in_map, Hin).
  apply in_map_iff in Hi. destruct Hi as [y [Hy Hiny]].
  rewrite <- Hy. apply Hlt, Hiny.
Qed.

Ltac keyed_rows :=
  unfold keyed; simpl;
  repeat match goal with |- _ /\ _ => split end;
  first
    [ assumption
    | apply fresh_ids_add; [assumption | reflexivity]
    | eapply fresh_ids_same;
      [ eassumption
      | first [apply write_queue_row_ids | apply write_article_row_ids] ] ].

Lemma persistence_call_keyed w w' :
  persistence_call ext w w' -> keyed (db w) -> keyed (db w').
Proof.
  intros Hc [Ha [Hm [Hq Hs]]]. destruct Hc.
  - unfold save_article, bind, get_db. simpl.
    destruct u as [u|]; simpl;
      [destruct (truthy u && truthy c); simpl|]; keyed_rows.
  - keyed_rows.
  - keyed_rows.
  - unfold update_publish_status, bind, get_db. simpl.
    destruct (List.find (fun q => q_id q =? id) (publish_queue (db w)));
      [|keyed_rows].
    destruct (PublishStatus.eqb st PublishStatus.COMPLETED); keyed_rows.
  - unfold mark_article_published, bind, get_db. simpl.
    destruct (List.find (fun a => a_id a =? id) (articles (db w)));
      keyed_rows.
Qed.

(** X13.  Whatever the persistence layer is asked to do, in every table
    the ids stay distinct and below the next id of the table's sequence;
    so the row an id denotes is unique in every store built by the
    layer. *)
Theorem ids_stay_unique (w w' : World) :
  keyed (db w) -> later ext w w' -> keyed (db w').
Proof.
  intros Hk Hl. induction Hl as [|w1 w2 w3 Hc _ IH]; [exact Hk|].
  apply IH. eapply persistence_call_keyed; eauto.
Qed.












End StoreFacts.

(** ** Entries of the publish queue *)

Section EntryFacts.
Import Schemas Runtime Database Publishing.
Local Open Scope Z_scope.
Variable ext : Externals.




End EntryFacts.

(** X13 on the empty store, after three calls of the layer. *)
Lemma ids_stay_unique_witness :
  keyed
    (Runtime.db
       (snd (Database.add_to_publish_queue 1 Schemas.PublishPlatform.STRAPI None
          (snd (Database.save_article Sample.ext (lit "T") (lit "Body.")
                  (lit "S") Schemas.ArticleCategory.CYBER
                  (Some (lit "https://example.org/a")) None None None None
                  (Runtime.initial Runtime.empty_db)))))).
Proof.
  apply (ids_stay_unique Sample.ext (Runtime.initial Runtime.empty_db)).
  - repeat split; constructor.
  - eapply later_call; [apply call_save_article|].
    eapply later_call; [apply call_add_to_publish_queue|].
    apply later_now.
Defined.




(** ** What a drain leaves behind *)

Section DrainFacts.
Import Schemas Config Runtime Database Publishing.
Local Open Scope Z_scope.
Variable settings : Settings.
Variable ext : Externals.

(** What identifies an entry: its id, its article, its platform. *)
Definition key (q : PublishQueue) : Z * Z * PublishPlatform.t :=
  (q_id q, q_article_id q, q_platform q).






















End DrainFacts.


(** ** A CMS that is not configured *)

Section UnconfiguredFacts.
Import Schemas Config Runtime Database Publishing.
Local Open Scope Z_scope.
Variable settings : Settings.
Variable ext : Externals.













End UnconfiguredFacts.


(** ** The loop body of the orchestrator *)

Section LoopFacts.
Import Schemas Config Runtime Database Ingestion Pipeline.
Local Open Scope Z_scope.
Variable settings : Settings.
Variable ext : Externals.

Lemma bind_raise {A B} (c : M A) (f : A -> M B) w e w1 :
  c w = (Raise e, w1) -> bind c f w = (Raise e, w1).
Proof. intros H. unfold bind. rewrite H. reflexivity. Qed.



(** The call of [save_metadata] in the loop body names a parameter the
    function does not have. *)
Lemma save_metadata_call_rejected {A} (body : M A) :
  call_with_keywords save_metadata_parameters
    (map lit [ "db"; "article_id"; "tags"; "keywords"; "seo_description";
               "entities"; "instagram_summary" ]%string)
    body
  = raise (TypeError (lit "got an unexpected keyword argument")).
Proof. reflexivity. Qed.










End LoopFacts.

(** ** A whole run *)

Section RunFacts.
Import Schemas Config Runtime Database Ingestion Pipeline.
Variable settings : Settings.
Variable ext : Externals.

Lemma bind_ext {A B} (c : M A) (f g : A -> M B) w :
  (forall a w1, f a w1 = g a w1) -> bind c f w = bind c g w.
Proof.
  intros H. unfold bind. destruct (c w) as [[a|e] w1]; [apply H | reflexivity].
Qed.

Lemma try_except_ext {A} (b1 b2 : M A) (h : exn -> M A) w :
  (forall w0, b1 w0 = b2 w0) -> try_except b1 h w = try_except b2 h w.
Proof. intros H. unfold try_except. rewrite H. reflexivity. Qed.

Lemma process_article_dry_run raw_article c w :
  process_article settings ext true raw_article c w
  = process_article settings ext false raw_article c w.
Proof.
  unfold process_article. apply bind_ext. intros d w1.
  destruct (is_duplicate ext d (url raw_article) (content raw_article));
    [reflexivity|].
  apply try_except_ext. intros w2.
  apply bind_ext. intros analysis w3.
  apply bind_ext. intros word_count w4.
  destruct (word_count <? article_min_words settings)%Z; [reflexivity|].
  do 8 (apply bind_ext; intros ? ?).
  rewrite !save_metadata_call_rejected. reflexivity.
Qed.

Lemma process_articles_dry_run l : forall c w,
  process_articles settings ext true l c w
  = process_articles settings ext false l c w.
Proof.
  induction l as [|a l IH]; intros c w; [reflexivity|].
  cbn [process_articles]. unfold bind. rewrite process_article_dry_run.
  destruct (process_article settings ext false a c w) as [[c1|e] w1];
    [apply IH | reflexivity].
Qed.

Lemma run_pipeline_dry_run raw_articles max_articles w :
  run_pipeline settings ext raw_articles true max_articles w
  = run_pipeline settings ext raw_articles false max_articles w.
Proof.
  unfold run_pipeline. destruct raw_articles as [|a l]; [reflexivity|].
  unfold bind. rewrite process_articles_dry_run. reflexivity.
Qed.

(** X20.  A dry run and a run that is not one end alike, whatever the
    items, the store and the services: with the same counters, the same
    store, and after the same interactions with the services outside.  The
    item loop reads the flag only after the call of [save_metadata], which
    does not return. *)
Theorem dry_run_makes_no_difference
        (raw_articles : list NewsArticle) (max_articles : option Z) (w : World) :
  let test := run_pipeline settings ext raw_articles true max_articles w in
  let production :=
    run_pipeline settings ext raw_articles false max_articles w in
  fst test = fst production
  /\ db (snd test) = db (snd production)
  /\ clock (snd test) = clock (snd production)
  /\ history (snd test) = history (snd production).
Proof.
  cbv zeta. rewrite run_pipeline_dry_run.
  repeat split.
Qed.

(** What a computation can return. *)
Definition yields {A} (P : A -> Prop) (c : M A) : Prop :=
  forall w a w1, c w = (Ok a, w1) -> P a.

Lemma yields_ret {A} (P : A -> Prop) a : P a -> yields P (ret a).
Proof. intros H w a' w1 [= <- _]. exact H. Qed.

Lemma yields_bind {A B} (P : B -> Prop) (c : M A) (f : A -> M B) :
  (forall a, yields P (f a)) -> yields P (bind c f).
Proof.
  intros H w b w1. unfold bind. destruct (c w) as [[a|e] w0];
    [apply H | discriminate].
Qed.

Lemma yields_raised {A B} (P : B -> Prop) e (f : A -> M B) :
  yields P (bind (raise e) f).
Proof. intros w b w1. discriminate. Qed.

Lemma yields_try_except {A} (P : A -> Prop) (c : M A) (h : exn -> M A) :
  yields P c -> (forall e, yields P (h e)) -> yields P (try_except c h).
Proof.
  intros Hc Hh w a w1. unfold try_except.
  destruct (c w) as [[a0|e] w0] eqn:E.
  - intros [= <- <-]. eapply Hc, E.
  - apply Hh.
Qed.

Lemma process_article_counts dry_run raw_article c :
  yields (fun c' => c' = c \/ c' = skipped c)
         (process_article settings ext dry_run raw_article c).
Proof.
  unfold process_article. apply yields_bind. intros d.
  destruct (is_duplicate ext d (url raw_article) (content raw_article)).
  { apply yields_bind. intros _. apply yields_ret. right. reflexivity. }
  apply yields_try_except.
  2:{ intros e. apply yields_bind. intros _. apply yields_ret. left.
      reflexivity. }
  apply yields_bind. intros analysis. apply yields_bind. intros word_count.
  destruct (word_count <? article_min_words settings)%Z.
  { apply yields_bind. intros _. apply yields_ret. right. reflexivity. }
  do 8 (apply yields_bind; intros ?).
  rewrite save_metadata_call_rejected. apply yields_raised.
Qed.

Lemma process_articles_counts dry_run l : forall c,
  yields (fun c' => processed_count c' = processed_count c
                    /\ skipped_count c' <= skipped_count c + List.length l)
         (process_articles settings ext dry_run l c).
Proof.
  induction l as [|a l IH]; intros c; cbn [process_articles].
  - apply yields_ret. cbn [List.length]. split; [reflexivity | lia].
  - intros w c2 w2. unfold bind.
    destruct (process_article settings ext dry_run a c w) as [[c1|e] w1] eqn:E;
      [|discriminate].
    intros H. apply (IH c1) in H. destruct H as [H1 H2].
    apply process_article_counts in E. cbn [List.length].
    destruct E as [-> | ->]; cbn [skipped processed_count skipped_count] in *;
      split; [assumption | lia | assumption | lia].
Qed.

(** Metadata untouched, articles only added, and added as drafts. *)
Definition drafts_only (w w' : World) : Prop :=
  metadata (db w') = metadata (db w)
  /\ exists added,
       articles (db w') = articles (db w) ++ added
       /\ Forall (fun a => a_status a = ArticleStatus.DRAFT) added.

Lemma drafts_only_frame : frame drafts_only.
Proof.
  split; unfold drafts_only; simpl.
  - intros w. split; [reflexivity|]. exists []. rewrite app_nil_r. auto.
  - intros w1 w2 w3 [M1 [a1 [E1 F1]]] [M2 [a2 [E2 F2]]].
    split; [congruence|]. exists (a1 ++ a2).
    rewrite E2, E1, app_assoc. split; [reflexivity|].
    apply Forall_app. auto.
  - intros l w. split; [reflexivity|]. exists []. rewrite app_nil_r. auto.
  - intros w. split; [reflexivity|]. exists []. rewrite app_nil_r. auto.
Qed.

Lemma same_store_drafts {A} (c : M A) :
  keeps same_store c -> keeps drafts_only c.
Proof.
  intros H w. destruct (H w) as [H1 _]. unfold drafts_only. rewrite H1.
  split; [reflexivity|]. exists []. rewrite app_nil_r. auto.
Qed.

Lemma save_article_drafts t c s cat u n r wc rs :
  keeps drafts_only (save_article ext t c s cat u n r wc rs).
Proof.
  intros w. unfold drafts_only, save_article, bind, get_db. simpl.
  destruct u as [u|]; simpl; [destruct (truthy u && truthy c); simpl|];
    (split; [reflexivity|]); eexists; (split; [reflexivity|]);
    repeat constructor.
Qed.

Lemma keeps_raised {A B} R e (f : A -> M B) :
  frame R -> keeps R (bind (raise e) f).
Proof. intros HR w. apply (frame_refl R HR). Qed.

Lemma process_article_drafts dry_run raw_article c :
  keeps drafts_only (process_article settings ext dry_run raw_article c).
Proof.
  unfold process_article.
  repeat first
    [ apply same_store_drafts, analyze_with_gemini_keeps
    | apply save_article_drafts
    | rewrite save_metadata_call_rejected;
      apply (keeps_raised _ _ _ drafts_only_frame)
    | frame_step drafts_only_frame ].
Qed.

Lemma process_articles_drafts dry_run l : forall c,
  keeps drafts_only (process_articles settings ext dry_run l c).
Proof.
  induction l as [|a l IH]; intros c; cbn [process_articles].
  - apply (keeps_ret _ drafts_only_frame).
  - apply (keeps_bind _ drafts_only_frame);
      [apply process_article_drafts | intros c'; apply IH].
Qed.

Lemma take_length {A} (l : list A) n : List.length (take l n) <= List.length l.
Proof.
  unfold take. destruct (0 <=? n)%Z; rewrite length_firstn; lia.
Qed.

(** X21.  Whenever a run returns its counters, the count of processed
    articles is zero, and at most one item per article fetched is counted as
    skipped.  No run stores metadata, and no run publishes: the articles
    that were there are as they were, and those added are drafts. *)
Theorem run_pipeline_publishes_nothing
        (raw_articles : list NewsArticle) (dry_run : bool)
        (max_articles : option Z) (w w' : World) (c : counts) :
  run_pipeline settings ext raw_articles dry_run max_articles w
  = (Ok (Some c), w') ->
  processed_count c = 0
  /\ skipped_count c <= List.length raw_articles
  /\ metadata (db w') = metadata (db w)
  /\ exists added,
       articles (db w') = articles (db w) ++ added
       /\ Forall (fun a => a_status a = ArticleStatus.DRAFT) added.
Proof.
  intros Hrun.
  assert (K : drafts_only w w').
  { assert (K0 : keeps drafts_only
                   (run_pipeline settings ext raw_articles dry_run max_articles)).
    { unfold run_pipeline. destruct raw_articles as [|a l].
      - apply (keeps_ret _ drafts_only_frame).
      - apply (keeps_bind _ drafts_only_frame);
          [apply process_articles_drafts
          | intros c'; apply (keeps_ret _ drafts_only_frame)]. }
    specialize (K0 w). rewrite Hrun in K0. exact K0. }
  destruct K as [K1 K2].
  revert Hrun. unfold run_pipeline. destruct raw_articles as [|a l];
    [discriminate|].
  unfold bind.
  match goal with
  | |- context [process_articles settings ext dry_run ?items ?c0 w] =>
      destruct (process_articles settings ext dry_run items c0 w)
        as [[c1|e] w1] eqn:E; [|discriminate];
      pose proof (take_length (a :: l)
                    match max_articles with
                    | Some n => if (n =? 0)%Z
                                then Z.of_nat (max_articles_per_run settings)
                                else n
                    | None => Z.of_nat (max_articles_per_run settings)
                    end) as Hlen
  end.
  intros [= <- <-]. apply process_articles_counts in E.
  cbn [processed_count skipped_count] in E. destruct E as [E1 E2].
  split; [exact E1|]. split; [lia|]. split; [exact K1 | exact K2].
Qed.

Lemma process_article_seen dry_run raw_article c w :
  is_duplicate ext (db w) (url raw_article) (content raw_article) = true ->
  process_article settings ext dry_run raw_article c w
  = (Ok (skipped c),
     {| db := db w; clock := clock w; stdout := stdout w ++ [SkippedDuplicate];
        history := history w |}).
Proof.
  intros H. unfold process_article, bind at 1, get_db. rewrite H. reflexivity.
Qed.

Lemma process_articles_seen dry_run l : forall c w,
  (forall a, In a l -> is_duplicate ext (db w) (url a) (content a) = true) ->
  process_articles settings ext dry_run l c w
  = (Ok {| processed_count := processed_count c;
           skipped_count := skipped_count c + List.length l |},
     {| db := db w; clock := clock w;
        stdout := stdout w ++ repeat SkippedDuplicate (List.length l);
        history := history w |}).
Proof.
  induction l as [|a l IH]; intros c w Hdup.
  - cbn [process_articles List.length repeat]. unfold ret.
    rewrite Nat.add_0_r, app_nil_r. destruct c, w; reflexivity.
  - cbn [process_articles]. unfold bind.
    rewrite (process_article_seen dry_run a c w (Hdup a (or_introl eq_refl))).
    rewrite IH by (intros b Hb; apply (Hdup b); right; exact Hb).
    cbn [db clock stdout history skipped processed_count skipped_count
         List.length repeat].
    rewrite <- app_assoc. cbn [app].
    replace (S (skipped_count c) + List.length l)
      with (skipped_count c + S (List.length l)) by lia.
    reflexivity.
Qed.

(** X22.  Items that are all duplicates of what the dedup cache holds are
    all counted as skipped: the loop returns normally, the generation
    service is not called, and the store is not touched. *)
Theorem seen_items_are_skipped
        (dry_run : bool) (l : list NewsArticle) (c : counts) (w : World) :
  (forall a, In a l -> is_duplicate ext (db w) (url a) (content a) = true) ->
  exists w',
    process_articles settings ext dry_run l c w
    = (Ok {| processed_count := processed_count c;
             skipped_count := skipped_count c + List.length l |}, w')
    /\ db w' = db w
    /\ clock w' = clock w
    /\ history w' = history w.
Proof.
  intros Hdup. eexists. split; [apply process_articles_seen; exact Hdup|].
  repeat split.
Qed.

End RunFacts.


(** X21 on a run over the sample item. *)
Lemma run_pipeline_publishes_nothing_witness :
  Pipeline.processed_count
    {| Pipeline.processed_count := 0; Pipeline.skipped_count := 0 |} = 0
  /\ Runtime.metadata
       (Runtime.db
          (snd (Pipeline.run_pipeline Sample.settings Sample.ext_ok
                  [Sample.item] false None (Runtime.initial Runtime.empty_db))))
     = [].
Proof.
  destruct (run_pipeline_publishes_nothing Sample.settings Sample.ext_ok
              [Sample.item] false None (Runtime.initial Runtime.empty_db)
              (snd (Pipeline.run_pipeline Sample.settings Sample.ext_ok
                      [Sample.item] false None
                      (Runtime.initial Runtime.empty_db)))
              {| Pipeline.processed_count := 0; Pipeline.skipped_count := 0 |})
    as [H1 [_ [H2 _]]].
  - vm_compute. reflexivity.
  - split; [exact H1 | exact H2].
Defined.

(** X22 on the sample item, once its URL is in the dedup cache. *)
Lemma seen_items_are_skipped_witness :
  fst (Pipeline.process_articles Sample.settings Sample.ext_ok false
         [Sample.item; Sample.item]
         {| Pipeline.processed_count := 0; Pipeline.skipped_count := 0 |}
         (snd (Database.save_article Sample.ext_ok (lit "T") (lit "Body.")
                 (lit "S") Schemas.ArticleCategory.DEFENSE
                 (Some (lit "https://example.org/a")) None None None None
                 (Runtime.initial Runtime.empty_db))))
  = Ok {| Pipeline.processed_count := 0; Pipeline.skipped_count := 2 |}.
Proof.
  destruct (seen_items_are_skipped Sample.settings Sample.ext_ok false
              [Sample.item; Sample.item]
              {| Pipeline.processed_count := 0; Pipeline.skipped_count := 0 |}
              (snd (Database.save_article Sample.ext_ok (lit "T") (lit "Body.")
                      (lit "S") Schemas.ArticleCategory.DEFENSE
                      (Some (lit "https://example.org/a")) None None None None
                      (Runtime.initial Runtime.empty_db))))
    as [w' [H _]].
  - intros a [<-|[<-|[]]]; reflexivity.
  - rewrite H. reflexivity.
Defined.

